(** * Robotic LEGO arm (main.c): periodic controllers over a device layer

    The program is a set of POSIX threads that talk to each other through
    six mutex-protected globals and to the EV3 brick through the ev3c
    library.  Every thread is embedded as a tree of [call]s (library calls,
    loads and stores of the globals), written in the order of the C text.
    A tree is run against a [world] (the globals and the log of every call
    made so far) and a [devices] record that answers the calls that read
    the hardware.  The same [exec] function drives the sequential [run] of
    one thread and the interleaved [schedule] of several. *)

From Stdlib Require Import ZArith List Bool String Ascii Lia DecimalString.
Import ListNotations.
Local Open Scope string_scope.
Local Open Scope Z_scope.

(** ** Constants of main.c *)

Definition FULL_SPEED_LARGE_MOTOR : Z := 900.
Definition FULL_SPEED_MEDIUM_MOTOR : Z := 1200.
Definition SUSPENSION_TIME : Z := 2000.
Definition CHECK_STATE_TIME : Z := 1000.
Definition ROTATION_POWER : Z := 30.
Definition ELEVATION_UP_POWER : Z := -30.
Definition ELEVATION_DOWN_POWER : Z := 20.
Definition CLAW_POWER : Z := 40.
Definition ROTATION_INIT_UNITS : Z := -350.
Definition ELEVATION_INIT_UNITS : Z := 100.
Definition CLAW_INIT_UNITS : Z := 90.
Definition TOUCH_SENSOR_ACTIVE : Z := 1.
Definition TOUCH_SENSOR_INACTIVE : Z := 0.
Definition REFLECTION_LIMIT : Z := 30.
Definition STEP_ROTATION_SPEED : Z := 40.
Definition STEP_ELEVATION_SPEED : Z := 20.
Definition STEP_CLAW_SPEED : Z := 40.
Definition MOTOR_LIMIT : Z := 9.
Definition TOP_BOTTOM_POS : Z := 200.
Definition TOP_LEFT_POS : Z := -400.
Definition CLAW_CLOSE_TIME : Z := 500000.
Definition X_TITLE : Z := 20.
Definition Y_TITLE : Z := 10.
Definition TITLE : string := "LEGO - ROBOTIC ARM".
Definition RADIUS : Z := 35.
Definition COLOR_CIRCLE : Z := 1.
Definition X_TIME : Z := 60.
Definition BUTTON_PERIOD : Z := 180000000.
Definition COLOR_PERIOD : Z := 200000000.
Definition TOUCH_PERIOD : Z := 200000000.
Definition MOTOR_PERIOD : Z := 90000000.
Definition LED_PERIOD : Z := 40000000.
Definition REPORTER_PERIOD : Z := 500000000.
Definition EXIT_FAILURE : Z := 1.
Definition EXIT_SUCCESS : Z := 0.

(** ** Enumerations *)

Inductive stop_mode := COAST | BRAKE | HOLD.

Definition STOP_MODE_STRING (s : stop_mode) : string :=
  match s with COAST => "coast" | BRAKE => "brake" | HOLD => "hold" end.

Inductive commands :=
  RUN_FOREVER | RUN_ABS_POS | RUN_REL_POS | RUN_TIMED | RUN_DIRECT | STOP | RESET.

Definition COMMANDS_STRING (c : commands) : string :=
  match c with
  | RUN_FOREVER => "run-forever"
  | RUN_ABS_POS => "run-to-abs-pos"
  | RUN_REL_POS => "run-to-rel-pos"
  | RUN_TIMED => "run-timed"
  | RUN_DIRECT => "run-direct"
  | STOP => "stop"
  | RESET => "reset"
  end.

Inductive actions_rotation := ROTATE_RIGHT | ROTATE_LEFT | ROTATE_STOP.
Inductive actions_elevation := RISE | LOWER | ELEVATE_STOP.
Inductive actions_claw := ACTIVE | INACTIVE.
Inductive color_command := COL_REFLECT | COL_AMBIENT | COL_COLOR.

Definition actions_rotation_eqb (a b : actions_rotation) : bool :=
  match a, b with
  | ROTATE_RIGHT, ROTATE_RIGHT | ROTATE_LEFT, ROTATE_LEFT
  | ROTATE_STOP, ROTATE_STOP => true
  | _, _ => false
  end.

Definition actions_elevation_eqb (a b : actions_elevation) : bool :=
  match a, b with
  | RISE, RISE | LOWER, LOWER | ELEVATE_STOP, ELEVATE_STOP => true
  | _, _ => false
  end.

(** The things the program holds a handle on.  A pointer to a motor or a
    sensor is the name of the device it was opened on. *)

Inductive motor := rotation_motor | elevation_motor | claw_motor.
Inductive sensor := color_sensor | touch_sensor.
Inductive button :=
  BUTTON_LEFT | BUTTON_RIGHT | BUTTON_UP | BUTTON_DOWN | BUTTON_CENTER | BUTTON_BACK.
Inductive led_side := LEFT_LED | RIGHT_LED.
Inductive led_color := RED_LED | GREEN_LED.

Definition motor_eqb (a b : motor) : bool :=
  match a, b with
  | rotation_motor, rotation_motor | elevation_motor, elevation_motor
  | claw_motor, claw_motor => true
  | _, _ => false
  end.

(** Port of each motor (LARGE_ROTATION_MOTOR_PORT and the like) and sensor. *)

Definition motor_port (m : motor) : ascii :=
  match m with
  | rotation_motor => "C"%char
  | elevation_motor => "B"%char
  | claw_motor => "A"%char
  end.

Definition sensor_port (s : sensor) : Z :=
  match s with color_sensor => 1 | touch_sensor => 2 end.

(** ** The shared globals and their mutexes *)

Inductive mutex :=
  | new_motors_status_mutex
  | top_mutex
  | clockwise_mutex
  | close_mutex
  | correction_mutex
  | claw_used_mutex.

Definition mutex_eqb (a b : mutex) : bool :=
  match a, b with
  | new_motors_status_mutex, new_motors_status_mutex
  | top_mutex, top_mutex
  | clockwise_mutex, clockwise_mutex
  | close_mutex, close_mutex
  | correction_mutex, correction_mutex
  | claw_used_mutex, claw_used_mutex => true
  | _, _ => false
  end.

(** The five boolean flags: [top_limit.top_limit_reached],
    [clockwise_limit.clockwise_limit_reached], [close_condition.close],
    [correction.correction_in_progress] and [claw_used.status]. *)

Inductive flag :=
  | top_limit_reached
  | clockwise_limit_reached
  | close
  | correction_in_progress
  | claw_used_status.

Record globals := Globals {
  rotation : actions_rotation;
  elevation : actions_elevation;
  claw : actions_claw;
  g_top_limit_reached : bool;
  g_clockwise_limit_reached : bool;
  g_close : bool;
  g_correction_in_progress : bool;
  g_claw_used_status : bool
}.

Definition get_flag (f : flag) (g : globals) : bool :=
  match f with
  | top_limit_reached => g_top_limit_reached g
  | clockwise_limit_reached => g_clockwise_limit_reached g
  | close => g_close g
  | correction_in_progress => g_correction_in_progress g
  | claw_used_status => g_claw_used_status g
  end.

Definition set_flag (f : flag) (b : bool) (g : globals) : globals :=
  match f with
  | top_limit_reached =>
      Globals (rotation g) (elevation g) (claw g) b (g_clockwise_limit_reached g)
        (g_close g) (g_correction_in_progress g) (g_claw_used_status g)
  | clockwise_limit_reached =>
      Globals (rotation g) (elevation g) (claw g) (g_top_limit_reached g) b
        (g_close g) (g_correction_in_progress g) (g_claw_used_status g)
  | close =>
      Globals (rotation g) (elevation g) (claw g) (g_top_limit_reached g)
        (g_clockwise_limit_reached g) b (g_correction_in_progress g)
        (g_claw_used_status g)
  | correction_in_progress =>
      Globals (rotation g) (elevation g) (claw g) (g_top_limit_reached g)
        (g_clockwise_limit_reached g) (g_close g) b (g_claw_used_status g)
  | claw_used_status =>
      Globals (rotation g) (elevation g) (claw g) (g_top_limit_reached g)
        (g_clockwise_limit_reached g) (g_close g) (g_correction_in_progress g) b
  end.

Definition set_rotation (a : actions_rotation) (g : globals) : globals :=
  Globals a (elevation g) (claw g) (g_top_limit_reached g)
    (g_clockwise_limit_reached g) (g_close g) (g_correction_in_progress g)
    (g_claw_used_status g).

Definition set_elevation (a : actions_elevation) (g : globals) : globals :=
  Globals (rotation g) a (claw g) (g_top_limit_reached g)
    (g_clockwise_limit_reached g) (g_close g) (g_correction_in_progress g)
    (g_claw_used_status g).

Definition set_claw (a : actions_claw) (g : globals) : globals :=
  Globals (rotation g) (elevation g) a (g_top_limit_reached g)
    (g_clockwise_limit_reached g) (g_close g) (g_correction_in_progress g)
    (g_claw_used_status g).

(** The globals when the eight controllers are created: the three intent
    fields and [claw_used.status] are assigned in [main]; the other flags
    are zero-initialised statics. *)

Definition initial_globals : globals :=
  Globals ROTATE_STOP ELEVATE_STOP INACTIVE false false false false false.

(** ** Calls

    One constructor per library call or access to a global that the threads
    make. *)

(** Modelled from the spec: the outcome of a call of the device layer
    (ev3c.h, which is not part of main.c).  A hardware failure is surfaced
    as an error from the device interface; main.c never looks at what its
    device calls hand back. *)

Inductive status := DEV_OK | DEV_ERROR.

Inductive call :=
  | pthread_mutex_lock (m : mutex)
  | pthread_mutex_unlock (m : mutex)
  | load (f : flag)
  | store (f : flag) (b : bool)
  | load_rotation
  | store_rotation (a : actions_rotation)
  | load_elevation
  | store_elevation (a : actions_elevation)
  | load_claw
  | store_claw (a : actions_claw)
  | ev3_button_pressed (b : button)
  | ev3_update_sensor_val (s : sensor)
  | val_data (s : sensor)
  | max_speed (m : motor)
  | ev3_stop_action_motor_by_name (m : motor) (name : string)
  | ev3_set_duty_cycle_sp (m : motor) (v : Z)
  | ev3_set_speed_sp (m : motor) (v : Z)
  | ev3_set_position_sp (m : motor) (v : Z)
  | ev3_set_position (m : motor) (v : Z)
  | ev3_command_motor_by_name (m : motor) (name : string)
  | ev3_get_position (m : motor)
  | ev3_motor_state (m : motor)
  | ev3_set_led (side : led_side) (color : led_color) (v : Z)
  | ev3_clear_lcd
  | ev3_text_lcd_normal (x y : Z) (text : string)
  | ev3_circle_lcd (x y r c : Z)
  | ev3_circle_lcd_out (x y r c : Z)
  | localtime_now
  | usleep (us : Z)
  | clock_gettime
  | clock_nanosleep (wakeup : Z)
  | ev3_load_motors
  | ev3_search_motor_by_port (m : motor)
  | ev3_reset_motor (m : motor)
  | ev3_open_motor (m : motor)
  | ev3_load_sensors
  | ev3_search_sensor_by_port (s : sensor)
  | ev3_open_sensor (s : sensor)
  | ev3_mode_sensor (s : sensor) (c : color_command)
  | ev3_init_button
  | ev3_init_led
  | ev3_init_lcd
  | printf (text : string).

(** What a call hands back.  Calls that return a pointer hand back whether
    it is non-NULL. *)

Definition result (c : call) : Type :=
  match c with
  | pthread_mutex_lock _ | pthread_mutex_unlock _ => unit
  | load _ => bool
  | store _ _ => unit
  | load_rotation => actions_rotation
  | store_rotation _ => unit
  | load_elevation => actions_elevation
  | store_elevation _ => unit
  | load_claw => actions_claw
  | store_claw _ => unit
  | ev3_button_pressed _ => bool
  | ev3_update_sensor_val _ => status
  | val_data _ => Z
  | max_speed _ => Z
  | ev3_stop_action_motor_by_name _ _ => status
  | ev3_set_duty_cycle_sp _ _ => status
  | ev3_set_speed_sp _ _ => status
  | ev3_set_position_sp _ _ => status
  | ev3_set_position _ _ => status
  | ev3_command_motor_by_name _ _ => status
  | ev3_get_position _ => Z
  | ev3_motor_state _ => Z
  | ev3_set_led _ _ _ => status
  | ev3_clear_lcd => status
  | ev3_text_lcd_normal _ _ _ => status
  | ev3_circle_lcd _ _ _ _ => status
  | ev3_circle_lcd_out _ _ _ _ => status
  | localtime_now => (Z * Z * Z)%type
  | usleep _ => unit
  | clock_gettime => Z
  | clock_nanosleep _ => Z
  | ev3_load_motors => bool
  | ev3_search_motor_by_port _ => bool
  | ev3_reset_motor _ => status
  | ev3_open_motor _ => bool
  | ev3_load_sensors => bool
  | ev3_search_sensor_by_port _ => bool
  | ev3_open_sensor _ => bool
  | ev3_mode_sensor _ _ => status
  | ev3_init_button => status
  | ev3_init_led => status
  | ev3_init_lcd => status
  | printf _ => unit
  end.

(** A logged call with what it handed back. *)

Record event := Ev { ev_call : call; ev_result : result ev_call }.

(** ** The world a thread runs in *)

(** The hardware as the calls of one period see it.  Every input but the
    motor state is read at most once on every path of a period of every
    controller, so one value per input is all a period can observe; the
    motor state is polled in a loop and is a sequence of readings.
    [call_status] is the outcome of each device call and [non_null] tells
    whether a call that returns a pointer succeeds. *)

Record devices := Devices {
  keypad : button -> bool;
  position : motor -> Z;
  sensor_value : sensor -> Z;
  motor_states : motor -> nat -> Z;
  motor_max_speed : motor -> Z;
  call_status : call -> status;
  non_null : call -> bool;
  monotonic_now : Z;
  sleep_return : Z;
  wall_clock : Z * Z * Z
}.

(** The globals and the log of the calls made so far, newest first. *)

Record world := World { mem : globals; log : list event }.

(** A mutex is held when the newest lock or unlock of it in the log is a
    lock. *)

Fixpoint held (m : mutex) (l : list event) : bool :=
  match l with
  | [] => false
  | e :: rest =>
      match ev_call e with
      | pthread_mutex_lock m' => if mutex_eqb m' m then true else held m rest
      | pthread_mutex_unlock m' => if mutex_eqb m' m then false else held m rest
      | _ => held m rest
      end
  end.

(** How many times the state of motor [m] has been read. *)

Fixpoint polls (m : motor) (l : list event) : nat :=
  match l with
  | [] => O
  | e :: rest =>
      match ev_call e with
      | ev3_motor_state m' => if motor_eqb m' m then S (polls m rest) else polls m rest
      | _ => polls m rest
      end
  end.

(** What a call hands back and what it does to the globals; [None] when
    the call cannot proceed (a lock on a mutex that is held). *)

Definition answer (d : devices) (l : list event) (g : globals) (c : call)
  : option (result c * globals) :=
  match c as c0 return option (result c0 * globals) with
  | pthread_mutex_lock m => if held m l then None else Some (tt, g)
  | pthread_mutex_unlock m => Some (tt, g)
  | load f => Some (get_flag f g, g)
  | store f b => Some (tt, set_flag f b g)
  | load_rotation => Some (rotation g, g)
  | store_rotation a => Some (tt, set_rotation a g)
  | load_elevation => Some (elevation g, g)
  | store_elevation a => Some (tt, set_elevation a g)
  | load_claw => Some (claw g, g)
  | store_claw a => Some (tt, set_claw a g)
  | ev3_button_pressed b => Some (keypad d b, g)
  | ev3_update_sensor_val s => Some (call_status d (ev3_update_sensor_val s), g)
  | val_data s => Some (sensor_value d s, g)
  | max_speed m => Some (motor_max_speed d m, g)
  | ev3_stop_action_motor_by_name m n =>
      Some (call_status d (ev3_stop_action_motor_by_name m n), g)
  | ev3_set_duty_cycle_sp m v => Some (call_status d (ev3_set_duty_cycle_sp m v), g)
  | ev3_set_speed_sp m v => Some (call_status d (ev3_set_speed_sp m v), g)
  | ev3_set_position_sp m v => Some (call_status d (ev3_set_position_sp m v), g)
  | ev3_set_position m v => Some (call_status d (ev3_set_position m v), g)
  | ev3_command_motor_by_name m n =>
      Some (call_status d (ev3_command_motor_by_name m n), g)
  | ev3_get_position m => Some (position d m, g)
  | ev3_motor_state m => Some (motor_states d m (polls m l), g)
  | ev3_set_led s c v => Some (call_status d (ev3_set_led s c v), g)
  | ev3_clear_lcd => Some (call_status d ev3_clear_lcd, g)
  | ev3_text_lcd_normal x y t => Some (call_status d (ev3_text_lcd_normal x y t), g)
  | ev3_circle_lcd x y r k => Some (call_status d (ev3_circle_lcd x y r k), g)
  | ev3_circle_lcd_out x y r k => Some (call_status d (ev3_circle_lcd_out x y r k), g)
  | localtime_now => Some (wall_clock d, g)
  | usleep _ => Some (tt, g)
  | clock_gettime => Some (monotonic_now d, g)
  | clock_nanosleep _ => Some (sleep_return d, g)
  | ev3_load_motors => Some (non_null d ev3_load_motors, g)
  | ev3_search_motor_by_port m => Some (non_null d (ev3_search_motor_by_port m), g)
  | ev3_reset_motor m => Some (call_status d (ev3_reset_motor m), g)
  | ev3_open_motor m => Some (non_null d (ev3_open_motor m), g)
  | ev3_load_sensors => Some (non_null d ev3_load_sensors, g)
  | ev3_search_sensor_by_port s => Some (non_null d (ev3_search_sensor_by_port s), g)
  | ev3_open_sensor s => Some (non_null d (ev3_open_sensor s), g)
  | ev3_mode_sensor s c => Some (call_status d (ev3_mode_sensor s c), g)
  | ev3_init_button => Some (call_status d ev3_init_button, g)
  | ev3_init_led => Some (call_status d ev3_init_led, g)
  | ev3_init_lcd => Some (call_status d ev3_init_lcd, g)
  | printf _ => Some (tt, g)
  end.

Definition exec (d : devices) (c : call) (w : world) : option (result c * world) :=
  match answer d (log w) (mem w) c with
  | Some (r, g) => Some (r, World g (Ev c r :: log w))
  | None => None
  end.

(** ** Programs *)

(** A thread is a tree of calls.  [Exit] is a call of exit() or a return
    from main; [Spin] stands for a loop that has used up its budget of
    iterations. *)

Inductive prog (A : Type) : Type :=
  | Ret (a : A)
  | Call (c : call) (k : result c -> prog A)
  | Exit (code : Z)
  | Spin.

Arguments Ret {A} a.
Arguments Call {A} c k.
Arguments Exit {A} code.
Arguments Spin {A}.

Fixpoint bind {A B : Type} (p : prog A) (f : A -> prog B) : prog B :=
  match p with
  | Ret a => f a
  | Call c k => Call c (fun r => bind (k r) f)
  | Exit code => Exit code
  | Spin => Spin
  end.

Definition perform (c : call) : prog (result c) := Call c Ret.

Declare Scope prog_scope.
Delimit Scope prog_scope with prog.
Bind Scope prog_scope with prog.

Notation "x <- p ;; q" := (bind p (fun x => q))
  (at level 200, p at next level, right associativity) : prog_scope.
Notation "p ;; q" := (bind p (fun _ => q))
  (at level 200, right associativity) : prog_scope.
Notation "! c" := (perform c) (at level 35, c at level 10) : prog_scope.

Local Open Scope prog_scope.

(** How a sequential run of one thread ends. *)

Inductive outcome (A : Type) : Type :=
  | Returned (a : A) (w : world)
  | Exited (code : Z) (w : world)
  | Blocked (w : world)
  | Spinning (w : world).

Arguments Returned {A} a w.
Arguments Exited {A} code w.
Arguments Blocked {A} w.
Arguments Spinning {A} w.

Fixpoint run (d : devices) {A : Type} (p : prog A) (w : world) : outcome A :=
  match p with
  | Ret a => Returned a w
  | Call c k =>
      match exec d c w with
      | Some (r, w') => run d (k r) w'
      | None => Blocked w
      end
  | Exit code => Exited code w
  | Spin => Spinning w
  end.

(** Threads interleaved call by call: [step d i ts w] lets thread [i] make
    its next call on the hardware as it is then, [d]; a schedule lists, in
    order, which thread moves and what the hardware is when it does. *)

Fixpoint replace {A : Type} (i : nat) (x : A) (l : list A) {struct l} : list A :=
  match l, i with
  | [], _ => []
  | _ :: t, O => x :: t
  | h :: t, S j => h :: replace j x t
  end.

Definition step (d : devices) (i : nat) (ts : list (prog unit)) (w : world)
  : option (list (prog unit) * world) :=
  match nth_error ts i with
  | Some (Call c k) =>
      match exec d c w with
      | Some (r, w') => Some (replace i (k r) ts, w')
      | None => None
      end
  | _ => None
  end.

Fixpoint schedule (sch : list (devices * nat)) (ts : list (prog unit)) (w : world)
  : option (list (prog unit) * world) :=
  match sch with
  | [] => Some (ts, w)
  | (d, i) :: rest =>
      match step d i ts w with
      | Some (ts', w') => schedule rest ts' w'
      | None => None
      end
  end.

(** ** Helpers shared by the threads *)

(** Arithmetic on [int]: division truncates.  Where a product does not
    fit 32 bits the C expression overflows a signed [int], which the
    language leaves undefined; the model wraps the value there, as the
    compiled code does on two's-complement hardware.  [step_speed] only
    supplies the argument of ev3_set_speed_sp. *)

Definition int32 (z : Z) : Z := (z + 2 ^ 31) mod 2 ^ 32 - 2 ^ 31.

Definition step_speed (percent max : Z) : Z :=
  int32 (Z.quot (int32 (percent * max)) 100).

(** Modelled from the spec: [incr_timespec] of timespec_operations.h, which
    is not part of main.c.  The next wakeup is the previous target plus the
    period; a time is a number of nanoseconds. *)

Definition incr_timespec (next_time period : Z) : Z := next_time + period.

(** Modelled from the spec: the CHK macro of error_checks.h, which is not
    part of main.c.  A call that returns non-zero is fatal: a diagnostic
    line is printed and the process exits with a failure status. *)

Definition CHK (p : prog Z) : prog unit :=
  ret <- p ;;
  if ret =? 0 then Ret tt
  else !printf "Error" ;; Exit EXIT_FAILURE.

Definition is_close_pressed : prog bool :=
  !pthread_mutex_lock close_mutex ;;
  close_pressed <- !load close ;;
  !pthread_mutex_unlock close_mutex ;;
  Ret close_pressed.

Definition is_clockwise_limit_reached : prog bool :=
  !pthread_mutex_lock clockwise_mutex ;;
  limit_reached <- !load clockwise_limit_reached ;;
  !pthread_mutex_unlock clockwise_mutex ;;
  Ret limit_reached.

Definition is_top_limit_reached : prog bool :=
  !pthread_mutex_lock top_mutex ;;
  limit_reached <- !load top_limit_reached ;;
  !pthread_mutex_unlock top_mutex ;;
  Ret limit_reached.

Definition set_correction (b : bool) : prog unit :=
  !pthread_mutex_lock correction_mutex ;;
  !store correction_in_progress b ;;
  !pthread_mutex_unlock correction_mutex.

(** The loop every controller is built on:
    [while (!is_close_pressed()) { body; incr_timespec; CHK(clock_nanosleep) }]
    followed by [pthread_exit].  [s] is the part of the thread's local
    variables that lives across iterations; [iters] bounds the number of
    periods. *)

Fixpoint periodic {S : Type} (iters : nat) (period : Z) (body : S -> prog S)
    (next_time : Z) (s : S) : prog unit :=
  match iters with
  | O => Spin
  | Datatypes.S n =>
      stop <- is_close_pressed ;;
      if stop then Ret tt
      else
        s' <- body s ;;
        let next_time := incr_timespec next_time period in
        CHK (!clock_nanosleep next_time) ;;
        periodic n period body next_time s'
  end.

Section Ev3c.

(** Constants of ev3c.h, which is not part of main.c: the RUNNING bit of
    the motor state and the size of the display. *)

Variable MOTOR_RUNNING : Z.
Variables EV3_X_LCD EV3_Y_LCD : Z.

(** [while ((ev3_motor_state (m) & MOTOR_RUNNING)) usleep(CHECK_STATE_TIME);]
    with at most [fuel] readings of the state. *)

Fixpoint wait_while_running (fuel : nat) (m : motor) : prog unit :=
  match fuel with
  | O => Spin
  | S n =>
      state <- !ev3_motor_state m ;;
      if Z.land state MOTOR_RUNNING =? 0 then Ret tt
      else !usleep CHECK_STATE_TIME ;; wait_while_running n m
  end.

(** ** buttons_controller *)

Definition buttons_tick (_ : unit) : prog unit :=
  !pthread_mutex_lock new_motors_status_mutex ;;
  left <- !ev3_button_pressed BUTTON_LEFT ;;
  (if left then
     right <- !ev3_button_pressed BUTTON_RIGHT ;;
     if right then !store_rotation ROTATE_STOP
     else !store_rotation ROTATE_LEFT
   else
     right <- !ev3_button_pressed BUTTON_RIGHT ;;
     if right then !store_rotation ROTATE_RIGHT
     else !store_rotation ROTATE_STOP) ;;
  up <- !ev3_button_pressed BUTTON_UP ;;
  (if up then
     down <- !ev3_button_pressed BUTTON_DOWN ;;
     if down then !store_elevation ELEVATE_STOP
     else !store_elevation RISE
   else
     down <- !ev3_button_pressed BUTTON_DOWN ;;
     if down then !store_elevation LOWER
     else !store_elevation ELEVATE_STOP) ;;
  center <- !ev3_button_pressed BUTTON_CENTER ;;
  (if center then !store_claw ACTIVE else !store_claw INACTIVE) ;;
  !pthread_mutex_unlock new_motors_status_mutex ;;
  !pthread_mutex_lock close_mutex ;;
  back <- !ev3_button_pressed BUTTON_BACK ;;
  (if back then !store close true else Ret tt) ;;
  !pthread_mutex_unlock close_mutex.

Definition buttons_controller (iters : nat) : prog unit :=
  next_time <- !clock_gettime ;;
  periodic iters BUTTON_PERIOD buttons_tick next_time tt.

(** ** color_sensor_controller and touch_sensor_controller *)

Definition color_sensor_tick (_ : unit) : prog unit :=
  !ev3_update_sensor_val color_sensor ;;
  color_data <- !val_data color_sensor ;;
  if color_data >=? REFLECTION_LIMIT then
    !pthread_mutex_lock top_mutex ;;
    !store top_limit_reached true ;;
    !pthread_mutex_unlock top_mutex
  else Ret tt.

Definition color_sensor_controller (iters : nat) : prog unit :=
  next_time <- !clock_gettime ;;
  periodic iters COLOR_PERIOD color_sensor_tick next_time tt.

Definition touch_sensor_tick (_ : unit) : prog unit :=
  !ev3_update_sensor_val touch_sensor ;;
  touch_data <- !val_data touch_sensor ;;
  if touch_data =? TOUCH_SENSOR_ACTIVE then
    !pthread_mutex_lock clockwise_mutex ;;
    !store clockwise_limit_reached true ;;
    !pthread_mutex_unlock clockwise_mutex
  else Ret tt.

Definition touch_sensor_controller (iters : nat) : prog unit :=
  next_time <- !clock_gettime ;;
  periodic iters TOUCH_PERIOD touch_sensor_tick next_time tt.

(** ** rotation_motor_controller

    One iteration of the loop, from the snapshot of the intent to the end
    of the if-chain.  The argument and the result are [rotation_actual];
    [rotation_next] is assigned afresh in every iteration. *)

Definition rotation_tick (fuel : nat) (rotation_actual : actions_rotation)
  : prog actions_rotation :=
  !pthread_mutex_lock new_motors_status_mutex ;;
  rotation_next <- !load_rotation ;;
  !pthread_mutex_unlock new_motors_status_mutex ;;
  limit <- is_clockwise_limit_reached ;;
  if limit then
    set_correction true ;;
    !ev3_set_position_sp rotation_motor ROTATION_INIT_UNITS ;;
    !ev3_command_motor_by_name rotation_motor (COMMANDS_STRING RUN_REL_POS) ;;
    !usleep SUSPENSION_TIME ;;
    wait_while_running fuel rotation_motor ;;
    !pthread_mutex_lock clockwise_mutex ;;
    !store clockwise_limit_reached false ;;
    !pthread_mutex_unlock clockwise_mutex ;;
    !ev3_set_duty_cycle_sp rotation_motor 0 ;;
    !ev3_command_motor_by_name rotation_motor (COMMANDS_STRING RUN_DIRECT) ;;
    set_correction false ;;
    Ret ROTATE_STOP
  else
    pos <- !ev3_get_position rotation_motor ;;
    if pos <? TOP_LEFT_POS then
      set_correction true ;;
      !ev3_set_position_sp rotation_motor 0 ;;
      !ev3_command_motor_by_name rotation_motor (COMMANDS_STRING RUN_ABS_POS) ;;
      !usleep SUSPENSION_TIME ;;
      wait_while_running fuel rotation_motor ;;
      !ev3_set_duty_cycle_sp rotation_motor 0 ;;
      !ev3_command_motor_by_name rotation_motor (COMMANDS_STRING RUN_DIRECT) ;;
      set_correction false ;;
      Ret ROTATE_STOP
    else if negb (actions_rotation_eqb rotation_actual rotation_next) then
      match rotation_next with
      | ROTATE_RIGHT => !ev3_set_duty_cycle_sp rotation_motor ROTATION_POWER
      | ROTATE_LEFT => !ev3_set_duty_cycle_sp rotation_motor (- ROTATION_POWER)
      | _ => !ev3_set_duty_cycle_sp rotation_motor 0
      end ;;
      Ret rotation_next
    else Ret rotation_actual.

Definition rotation_motor_controller (iters fuel : nat) : prog unit :=
  next_time <- !clock_gettime ;;
  periodic iters MOTOR_PERIOD (rotation_tick fuel) next_time ROTATE_STOP.

(** ** elevation_motor_controller *)

Definition elevation_tick (fuel : nat) (elevation_actual : actions_elevation)
  : prog actions_elevation :=
  !pthread_mutex_lock new_motors_status_mutex ;;
  elevation_next <- !load_elevation ;;
  !pthread_mutex_unlock new_motors_status_mutex ;;
  limit <- is_top_limit_reached ;;
  if limit then
    set_correction true ;;
    !ev3_set_position_sp elevation_motor ELEVATION_INIT_UNITS ;;
    !ev3_command_motor_by_name elevation_motor (COMMANDS_STRING RUN_REL_POS) ;;
    !usleep SUSPENSION_TIME ;;
    wait_while_running fuel elevation_motor ;;
    !pthread_mutex_lock top_mutex ;;
    !store top_limit_reached false ;;
    !pthread_mutex_unlock top_mutex ;;
    !ev3_set_duty_cycle_sp elevation_motor 0 ;;
    !ev3_command_motor_by_name elevation_motor (COMMANDS_STRING RUN_DIRECT) ;;
    set_correction false ;;
    Ret ELEVATE_STOP
  else
    pos <- !ev3_get_position elevation_motor ;;
    if pos >? TOP_BOTTOM_POS then
      set_correction true ;;
      !ev3_set_position_sp elevation_motor 0 ;;
      !ev3_command_motor_by_name elevation_motor (COMMANDS_STRING RUN_ABS_POS) ;;
      !usleep SUSPENSION_TIME ;;
      wait_while_running fuel elevation_motor ;;
      !ev3_set_duty_cycle_sp elevation_motor 0 ;;
      !ev3_command_motor_by_name elevation_motor (COMMANDS_STRING RUN_DIRECT) ;;
      set_correction false ;;
      Ret ELEVATE_STOP
    else if negb (actions_elevation_eqb elevation_actual elevation_next) then
      match elevation_next with
      | RISE => !ev3_set_duty_cycle_sp elevation_motor ELEVATION_UP_POWER
      | LOWER => !ev3_set_duty_cycle_sp elevation_motor ELEVATION_DOWN_POWER
      | _ => !ev3_set_duty_cycle_sp elevation_motor 0
      end ;;
      Ret elevation_next
    else Ret elevation_actual.

Definition elevation_motor_controller (iters fuel : nat) : prog unit :=
  next_time <- !clock_gettime ;;
  periodic iters MOTOR_PERIOD (elevation_tick fuel) next_time ELEVATE_STOP.

(** ** claw_motor_controller: the argument and the result are [claw_open] *)

Definition claw_tick (fuel : nat) (claw_open : bool) : prog bool :=
  !pthread_mutex_lock new_motors_status_mutex ;;
  claw_status <- !load_claw ;;
  !pthread_mutex_unlock new_motors_status_mutex ;;
  match claw_status with
  | ACTIVE =>
      claw_open' <-
        (if claw_open then
           !ev3_set_duty_cycle_sp claw_motor (- CLAW_POWER) ;;
           !ev3_command_motor_by_name claw_motor (COMMANDS_STRING RUN_DIRECT) ;;
           !usleep CLAW_CLOSE_TIME ;;
           !ev3_set_duty_cycle_sp claw_motor 0 ;;
           !pthread_mutex_lock claw_used_mutex ;;
           !store claw_used_status true ;;
           !pthread_mutex_unlock claw_used_mutex ;;
           Ret false
         else
           !ev3_set_position_sp claw_motor 0 ;;
           !ev3_command_motor_by_name claw_motor (COMMANDS_STRING RUN_ABS_POS) ;;
           !usleep SUSPENSION_TIME ;;
           wait_while_running fuel claw_motor ;;
           !ev3_set_duty_cycle_sp claw_motor 0 ;;
           !ev3_command_motor_by_name claw_motor (COMMANDS_STRING RUN_DIRECT) ;;
           !pthread_mutex_lock claw_used_mutex ;;
           !store claw_used_status false ;;
           !pthread_mutex_unlock claw_used_mutex ;;
           Ret true) ;;
      !pthread_mutex_lock new_motors_status_mutex ;;
      !store_claw INACTIVE ;;
      !pthread_mutex_unlock new_motors_status_mutex ;;
      Ret claw_open'
  | INACTIVE => Ret claw_open
  end.

Definition claw_motor_controller (iters fuel : nat) : prog unit :=
  next_time <- !clock_gettime ;;
  periodic iters MOTOR_PERIOD (claw_tick fuel) next_time true.

(** ** leds_controller: the argument and the result are [previous] *)

Definition leds_tick (previous : bool) : prog bool :=
  !pthread_mutex_lock correction_mutex ;;
  actual <- !load correction_in_progress ;;
  !pthread_mutex_unlock correction_mutex ;;
  if actual && negb previous then
    !ev3_set_led LEFT_LED RED_LED 255 ;;
    !ev3_set_led RIGHT_LED RED_LED 255 ;;
    !ev3_set_led LEFT_LED GREEN_LED 0 ;;
    !ev3_set_led RIGHT_LED GREEN_LED 0 ;;
    Ret true
  else if negb actual && previous then
    !ev3_set_led LEFT_LED GREEN_LED 255 ;;
    !ev3_set_led RIGHT_LED GREEN_LED 255 ;;
    !ev3_set_led LEFT_LED RED_LED 0 ;;
    !ev3_set_led RIGHT_LED RED_LED 0 ;;
    Ret false
  else Ret previous.

Definition leds_controller (iters : nat) : prog unit :=
  next_time <- !clock_gettime ;;
  periodic iters LED_PERIOD leds_tick next_time false.

(** ** reporter *)

(** [%02d] of sprintf. *)

Definition two_digits (n : Z) : string :=
  let s := NilZero.string_of_int (Z.to_int n) in
  if (String.length s <? 2)%nat then String.append "0" s else s.

Definition time_str (hour minute second : Z) : string :=
  (two_digits hour ++ ":" ++ two_digits minute ++ ":" ++ two_digits second)%string.

Definition reporter_tick (_ : unit) : prog unit :=
  !ev3_clear_lcd ;;
  !pthread_mutex_lock claw_used_mutex ;;
  claw_status <- !load claw_used_status ;;
  !pthread_mutex_unlock claw_used_mutex ;;
  now_tm <- !localtime_now ;;
  let '(hour, minute, second) := now_tm in
  !ev3_text_lcd_normal X_TITLE Y_TITLE TITLE ;;
  (if claw_status then
     !ev3_circle_lcd (Z.quot EV3_X_LCD 2) (Z.quot EV3_Y_LCD 2) RADIUS COLOR_CIRCLE
   else
     !ev3_circle_lcd_out (Z.quot EV3_X_LCD 2) (Z.quot EV3_Y_LCD 2) RADIUS COLOR_CIRCLE) ;;
  !ev3_text_lcd_normal X_TIME (EV3_Y_LCD - 20) (time_str hour minute second) ;;
  Ret tt.

Definition reporter (iters : nat) : prog unit :=
  next_time <- !clock_gettime ;;
  periodic iters REPORTER_PERIOD reporter_tick next_time tt.

(** ** The three initializers

    Each takes the sampling period main hands it in its parameter
    structure; the loops are bounded by [fuel] iterations. *)

Fixpoint rotate_until_touch (fuel : nat) (period next_time : Z) : prog Z :=
  match fuel with
  | O => Spin
  | S n =>
      !ev3_update_sensor_val touch_sensor ;;
      touch_data <- !val_data touch_sensor ;;
      let next_time := incr_timespec next_time period in
      CHK (!clock_nanosleep next_time) ;;
      if touch_data =? TOUCH_SENSOR_INACTIVE
      then rotate_until_touch n period next_time
      else Ret next_time
  end.

Fixpoint rise_until_reflection (fuel : nat) (period next_time : Z) : prog Z :=
  match fuel with
  | O => Spin
  | S n =>
      !ev3_update_sensor_val color_sensor ;;
      reflection_data <- !val_data color_sensor ;;
      let next_time := incr_timespec next_time period in
      CHK (!clock_nanosleep next_time) ;;
      if reflection_data <? REFLECTION_LIMIT
      then rise_until_reflection n period next_time
      else Ret next_time
  end.

Fixpoint close_until_limit (fuel : nat) (period next_time : Z) : prog Z :=
  match fuel with
  | O => Spin
  | S n =>
      claw_status <- !ev3_motor_state claw_motor ;;
      let next_time := incr_timespec next_time period in
      CHK (!clock_nanosleep next_time) ;;
      if negb (claw_status =? MOTOR_LIMIT)
      then close_until_limit n period next_time
      else Ret next_time
  end.

(** [do { incr_timespec; CHK(clock_nanosleep) } while (state & MOTOR_RUNNING)] *)

Fixpoint sleep_while_running (fuel : nat) (m : motor) (period next_time : Z)
  : prog Z :=
  match fuel with
  | O => Spin
  | S n =>
      let next_time := incr_timespec next_time period in
      CHK (!clock_nanosleep next_time) ;;
      state <- !ev3_motor_state m ;;
      if Z.land state MOTOR_RUNNING =? 0 then Ret next_time
      else sleep_while_running n m period next_time
  end.

Definition rotation_motor_initializer (fuel : nat) (period : Z) : prog unit :=
  next_time <- !clock_gettime ;;
  !ev3_stop_action_motor_by_name rotation_motor (STOP_MODE_STRING HOLD) ;;
  !ev3_set_duty_cycle_sp rotation_motor ROTATION_POWER ;;
  !ev3_command_motor_by_name rotation_motor (COMMANDS_STRING RUN_DIRECT) ;;
  rotate_until_touch fuel period next_time ;;
  speed <- !max_speed rotation_motor ;;
  !ev3_set_speed_sp rotation_motor (step_speed STEP_ROTATION_SPEED speed) ;;
  !ev3_set_position_sp rotation_motor ROTATION_INIT_UNITS ;;
  !ev3_command_motor_by_name rotation_motor (COMMANDS_STRING RUN_REL_POS) ;;
  !usleep SUSPENSION_TIME ;;
  next_time <- !clock_gettime ;;
  sleep_while_running fuel rotation_motor period next_time ;;
  !ev3_set_duty_cycle_sp rotation_motor 0 ;;
  !ev3_command_motor_by_name rotation_motor (COMMANDS_STRING RUN_DIRECT) ;;
  !ev3_set_position rotation_motor 0 ;;
  Ret tt.

Definition elevation_motor_initializer (fuel : nat) (period : Z) : prog unit :=
  next_time <- !clock_gettime ;;
  !ev3_stop_action_motor_by_name elevation_motor (STOP_MODE_STRING HOLD) ;;
  !ev3_set_duty_cycle_sp elevation_motor ELEVATION_UP_POWER ;;
  !ev3_command_motor_by_name elevation_motor (COMMANDS_STRING RUN_DIRECT) ;;
  rise_until_reflection fuel period next_time ;;
  speed <- !max_speed elevation_motor ;;
  !ev3_set_speed_sp elevation_motor (step_speed STEP_ELEVATION_SPEED speed) ;;
  !ev3_set_position_sp elevation_motor ELEVATION_INIT_UNITS ;;
  !ev3_command_motor_by_name elevation_motor (COMMANDS_STRING RUN_REL_POS) ;;
  !usleep SUSPENSION_TIME ;;
  next_time <- !clock_gettime ;;
  sleep_while_running fuel elevation_motor period next_time ;;
  !ev3_set_duty_cycle_sp elevation_motor 0 ;;
  !ev3_command_motor_by_name elevation_motor (COMMANDS_STRING RUN_DIRECT) ;;
  !ev3_set_position elevation_motor 0 ;;
  Ret tt.

Definition claw_motor_initializer (fuel : nat) (period : Z) : prog unit :=
  next_time <- !clock_gettime ;;
  !ev3_stop_action_motor_by_name claw_motor (STOP_MODE_STRING HOLD) ;;
  !ev3_set_duty_cycle_sp claw_motor (- CLAW_POWER) ;;
  !ev3_command_motor_by_name claw_motor (COMMANDS_STRING RUN_DIRECT) ;;
  next_time <- close_until_limit fuel period next_time ;;
  speed <- !max_speed claw_motor ;;
  !ev3_set_speed_sp claw_motor (step_speed STEP_CLAW_SPEED speed) ;;
  !ev3_set_position_sp claw_motor CLAW_INIT_UNITS ;;
  !ev3_command_motor_by_name claw_motor (COMMANDS_STRING RUN_REL_POS) ;;
  !usleep SUSPENSION_TIME ;;
  sleep_while_running fuel claw_motor period next_time ;;
  !ev3_set_duty_cycle_sp claw_motor 0 ;;
  !ev3_command_motor_by_name claw_motor (COMMANDS_STRING RUN_DIRECT) ;;
  !ev3_set_position claw_motor 0 ;;
  Ret tt.

(** ** main, up to the creation of the initializer threads

    Devices are loaded and opened; a NULL pointer ends the process with
    EXIT_FAILURE after a message, which [or_fail] ends with a newline.
    The checks after the searches of the elevation and claw motors test
    [rotation_motor], as the source does. *)

Definition newline : string := String (ascii_of_nat 10) EmptyString.

Definition or_fail {A : Type} (ok : bool) (message : string) (k : prog A) : prog A :=
  if ok then k else !printf (message ++ newline) ;; Exit EXIT_FAILURE.

Definition main_startup : prog unit :=
  motors <- !ev3_load_motors ;;
  or_fail motors "Error on ev3_load_motors" (
  rotation_found <- !ev3_search_motor_by_port rotation_motor ;;
  or_fail rotation_found "Error on ev3_search_motor_by_port with rotation motor." (
  !ev3_reset_motor rotation_motor ;;
  rotation_opened <- !ev3_open_motor rotation_motor ;;
  or_fail rotation_opened "Error on ev3_open_sensor with rotation motor." (
  !ev3_search_motor_by_port elevation_motor ;;
  or_fail rotation_opened "Error on ev3_search_motor_by_port with elevation motor." (
  !ev3_reset_motor elevation_motor ;;
  elevation_opened <- !ev3_open_motor elevation_motor ;;
  or_fail elevation_opened "Error on ev3_open_sensor with elevation motor." (
  !ev3_search_motor_by_port claw_motor ;;
  or_fail rotation_opened "Error on ev3_search_motor_by_port with claw motor." (
  !ev3_reset_motor claw_motor ;;
  claw_opened <- !ev3_open_motor claw_motor ;;
  or_fail claw_opened "Error on ev3_open_sensor with claw motor." (
  sensors <- !ev3_load_sensors ;;
  or_fail sensors "Error on ev3_load_sensors" (
  touch_found <- !ev3_search_sensor_by_port touch_sensor ;;
  or_fail touch_found "Error with touch sensor on ev3_search_sensor_by_port." (
  touch_opened <- !ev3_open_sensor touch_sensor ;;
  or_fail touch_opened "Error on ev3_open_sensor with touch sensor." (
  color_found <- !ev3_search_sensor_by_port color_sensor ;;
  or_fail color_found "Error with color sensor on ev3_search_sensor_by_port." (
  color_opened <- !ev3_open_sensor color_sensor ;;
  or_fail color_opened "Error on ev3_open_sensor with color sensor." (
  !ev3_mode_sensor color_sensor COL_REFLECT ;;
  !ev3_init_button ;;
  !ev3_init_led ;;
  !ev3_init_lcd ;;
  Ret tt)))))))))))).

(** The start of main, then the three initializers, which main creates
    and joins before it goes on.  They are run here one after the other.
    What main does between the initializers and the controllers (it
    initialises the mutexes and the thread attributes and gives the intent
    and [claw_used.status] their first values) makes no device call and is
    not part of [startup]. *)

Definition startup (fuel : nat) : prog unit :=
  main_startup ;;
  rotation_motor_initializer fuel MOTOR_PERIOD ;;
  elevation_motor_initializer fuel MOTOR_PERIOD ;;
  claw_motor_initializer fuel MOTOR_PERIOD.

(** ** The eight periodic activities, by name *)

Inductive activity :=
  | Buttons | ColorSensor | TouchSensor | Rotation | Elevation | Claw | Leds | Reporter.

(** The local variables an activity keeps from one period to the next. *)

Definition local (a : activity) : Type :=
  match a with
  | Rotation => actions_rotation
  | Elevation => actions_elevation
  | Claw | Leds => bool
  | _ => unit
  end.

Definition tick (fuel : nat) (a : activity) : local a -> prog (local a) :=
  match a with
  | Buttons => buttons_tick
  | ColorSensor => color_sensor_tick
  | TouchSensor => touch_sensor_tick
  | Rotation => rotation_tick fuel
  | Elevation => elevation_tick fuel
  | Claw => claw_tick fuel
  | Leds => leds_tick
  | Reporter => reporter_tick
  end.

Definition controller (iters fuel : nat) (a : activity) : prog unit :=
  match a with
  | Buttons => buttons_controller iters
  | ColorSensor => color_sensor_controller iters
  | TouchSensor => touch_sensor_controller iters
  | Rotation => rotation_motor_controller iters fuel
  | Elevation => elevation_motor_controller iters fuel
  | Claw => claw_motor_controller iters fuel
  | Leds => leds_controller iters
  | Reporter => reporter iters
  end.

Definition period (a : activity) : Z :=
  match a with
  | Buttons => BUTTON_PERIOD
  | ColorSensor => COLOR_PERIOD
  | TouchSensor => TOUCH_PERIOD
  | Rotation | Elevation | Claw => MOTOR_PERIOD
  | Leds => LED_PERIOD
  | Reporter => REPORTER_PERIOD
  end.

(** The local variables when the thread starts. *)

Definition initial_local (a : activity) : local a :=
  match a with
  | Rotation => ROTATE_STOP
  | Elevation => ELEVATE_STOP
  | Claw => true
  | Leds => false
  | Buttons | ColorSensor | TouchSensor | Reporter => tt
  end.

(** An activity at the head of its loop, about to test [close], with the
    local variables it has reached. *)

Definition resume (iters fuel : nat) (a : activity) (next_time : Z) (s : local a)
  : prog unit :=
  periodic iters (period a) (tick fuel a) next_time s.

(** The threads main creates, in the order of the pthread_create calls. *)

Definition controllers (iters fuel : nat) : list (prog unit) :=
  map (controller iters fuel)
    [Buttons; ColorSensor; TouchSensor; Rotation; Elevation; Claw; Leds; Reporter].

End Ev3c.

(** ** main, before it creates the controllers

    The first values of the intent and of [claw_used.status].  main
    assigns them directly, without taking the mutexes that protect
    them. *)

Definition main_initial_values : prog unit :=
  !store_claw INACTIVE ;;
  !store_elevation ELEVATE_STOP ;;
  !store_rotation ROTATE_STOP ;;
  !store claw_used_status false.

(** ** main, after the controllers have been joined

    Each motor is sent back to position 0 and waited for, in the order
    rotation, elevation, claw; then the three motors are reset.  The calls
    that release the devices after that are not modelled. *)

Section Shutdown.

Variable MOTOR_RUNNING : Z.

Definition park (fuel : nat) (m : motor) : prog unit :=
  !ev3_set_position_sp m 0 ;;
  !ev3_command_motor_by_name m (COMMANDS_STRING RUN_ABS_POS) ;;
  !usleep SUSPENSION_TIME ;;
  wait_while_running MOTOR_RUNNING fuel m.

Definition main_parking (fuel : nat) : prog unit :=
  park fuel rotation_motor ;;
  park fuel elevation_motor ;;
  park fuel claw_motor ;;
  !ev3_reset_motor rotation_motor ;;
  !ev3_reset_motor elevation_motor ;;
  !ev3_reset_motor claw_motor ;;
  Ret tt.

End Shutdown.

(** * Observations and specifications *)

Local Close Scope string_scope.

(** ** Observing a run *)

Definition world_of {A : Type} (o : outcome A) : world :=
  match o with
  | Returned _ w | Exited _ w | Blocked w | Spinning w => w
  end.

(** The calls made on the way from [w] to [w'], oldest first. *)

Definition issued (w w' : world) : list event :=
  rev (firstn (List.length (log w') - List.length (log w)) (log w')).

(** Every call a program can make, whatever its calls hand back,
    satisfies [P]. *)

Fixpoint all_calls {A : Type} (P : call -> Prop) (p : prog A) : Prop :=
  match p with
  | Call c k => P c /\ forall r, all_calls P (k r)
  | _ => True
  end.

(** Log entries of the device calls, with the status the hardware gives. *)

Definition duty_cycle_sp (d : devices) (m : motor) (v : Z) : event :=
  Ev (ev3_set_duty_cycle_sp m v) (call_status d (ev3_set_duty_cycle_sp m v)).

Definition position_sp (d : devices) (m : motor) (v : Z) : event :=
  Ev (ev3_set_position_sp m v) (call_status d (ev3_set_position_sp m v)).

Definition command (d : devices) (m : motor) (c : commands) : event :=
  Ev (ev3_command_motor_by_name m (COMMANDS_STRING c))
     (call_status d (ev3_command_motor_by_name m (COMMANDS_STRING c))).

Definition set_led (d : devices) (s : led_side) (c : led_color) (v : Z) : event :=
  Ev (ev3_set_led s c v) (call_status d (ev3_set_led s c v)).

(** A critical section that makes one access [c] under mutex [m]. *)

Definition locked (m : mutex) (c : call) (r : result c) : list event :=
  [Ev (pthread_mutex_lock m) tt; Ev c r; Ev (pthread_mutex_unlock m) tt].

(** The log of the polling loop when the motor is seen running [k] times
    and then stopped; [n] readings of its state were made before. *)

Fixpoint wait_log (d : devices) (m : motor) (n k : nat) : list event :=
  match k with
  | O => [Ev (ev3_motor_state m) (motor_states d m n)]
  | S k' =>
      Ev (ev3_motor_state m) (motor_states d m n)
        :: Ev (usleep CHECK_STATE_TIME) tt :: wait_log d m (S n) k'
  end.

(** The motor reports RUNNING at its next [k] readings and not at the one
    after. *)

Definition stops_after (MOTOR_RUNNING : Z) (d : devices) (m : motor) (l : list event)
    (k : nat) : Prop :=
  (forall j, (j < k)%nat ->
     Z.land (motor_states d m (polls m l + j)) MOTOR_RUNNING <> 0) /\
  Z.land (motor_states d m (polls m l + k)) MOTOR_RUNNING = 0.

(** No mutex is held. *)

Definition unlocked (w : world) : Prop := forall m, held m (log w) = false.

(** The duty-cycle setpoints among some calls: motor and value. *)

Definition duty_of (e : event) : option (motor * Z) :=
  match ev_call e with
  | ev3_set_duty_cycle_sp m v => Some (m, v)
  | _ => None
  end.

Fixpoint duties (l : list event) : list (motor * Z) :=
  match l with
  | [] => []
  | e :: rest =>
      match duty_of e with
      | Some mv => mv :: duties rest
      | None => duties rest
      end
  end.

(** The duty cycles each axis may be driven with. *)

Definition rotation_duty_ok (mv : motor * Z) : Prop :=
  fst mv = rotation_motor /\ (snd mv = 30 \/ snd mv = -30 \/ snd mv = 0).

Definition elevation_duty_ok (mv : motor * Z) : Prop :=
  fst mv = elevation_motor /\ (snd mv = -30 \/ snd mv = 20 \/ snd mv = 0).

Definition claw_duty_ok (mv : motor * Z) : Prop :=
  fst mv = claw_motor /\ (snd mv = -40 \/ snd mv = 0).

Definition axis_duty_ok (mv : motor * Z) : Prop :=
  match fst mv with
  | rotation_motor => snd mv = 30 \/ snd mv = -30 \/ snd mv = 0
  | elevation_motor => snd mv = -30 \/ snd mv = 20 \/ snd mv = 0
  | claw_motor => snd mv = -40 \/ snd mv = 0
  end.

Definition duty_calls (ok : motor * Z -> Prop) (c : call) : Prop :=
  match c with
  | ev3_set_duty_cycle_sp m v => ok (m, v)
  | _ => True
  end.

(** The intent as the button sampler is specified: opposite keys cancel,
    one key alone gives its direction, CENTER activates the claw. *)

Definition spec_rotation (left right : bool) : actions_rotation :=
  match left, right with
  | true, true | false, false => ROTATE_STOP
  | true, false => ROTATE_LEFT
  | false, true => ROTATE_RIGHT
  end.

Definition spec_elevation (up down : bool) : actions_elevation :=
  match up, down with
  | true, true | false, false => ELEVATE_STOP
  | true, false => RISE
  | false, true => LOWER
  end.

Definition spec_claw (center : bool) : actions_claw :=
  if center then ACTIVE else INACTIVE.

(** The duty cycle each action is driven with. *)

Definition rotation_power (a : actions_rotation) : Z :=
  match a with ROTATE_RIGHT => 30 | ROTATE_LEFT => -30 | ROTATE_STOP => 0 end.

Definition elevation_power (a : actions_elevation) : Z :=
  match a with RISE => -30 | LOWER => 20 | ELEVATE_STOP => 0 end.

(** The commands sent to the motors among some calls: motor and name. *)

Fixpoint motor_commands (l : list event) : list (motor * string) :=
  match l with
  | [] => []
  | e :: rest =>
      match ev_call e with
      | ev3_command_motor_by_name m n => (m, n) :: motor_commands rest
      | _ => motor_commands rest
      end
  end.

(** The LED writes among some calls. *)

Fixpoint led_writes (l : list event) : list (led_side * led_color * Z) :=
  match l with
  | [] => []
  | e :: rest =>
      match ev_call e with
      | ev3_set_led s c v => (s, c, v) :: led_writes rest
      | _ => led_writes rest
      end
  end.

(** Calls that write a limit flag or a field of the intent. *)

Definition writes_limit_or_intent (c : call) : bool :=
  match c with
  | store top_limit_reached _ | store clockwise_limit_reached _
  | store_rotation _ | store_elevation _ | store_claw _ => true
  | _ => false
  end.

Definition same_limits_and_intent (g g' : globals) : Prop :=
  g_top_limit_reached g' = g_top_limit_reached g /\
  g_clockwise_limit_reached g' = g_clockwise_limit_reached g /\
  rotation g' = rotation g /\ elevation g' = elevation g /\ claw g' = claw g.

(** Whether the call [c], handing back [r], has read the flag [f] as
    true. *)

Definition flag_eqb (f f' : flag) : bool :=
  match f, f' with
  | top_limit_reached, top_limit_reached
  | clockwise_limit_reached, clockwise_limit_reached
  | close, close
  | correction_in_progress, correction_in_progress
  | claw_used_status, claw_used_status => true
  | _, _ => false
  end.

Definition read_as_true (f : flag) (c : call) : result c -> bool :=
  match c as c0 return result c0 -> bool with
  | load f' => fun r => flag_eqb f f' && r
  | _ => fun _ => false
  end.

(** On every path of [p], whatever the calls hand back, the only write
    into a limit flag or into the intent is [f := false], and it is made
    only where [f] has been read as true before ([seen] tells whether it
    has been so far): the clearing of [f] belongs to the branch taken when
    the sensor limit is reached and to no other. *)

Fixpoint clears_only_seen {A : Type} (f : flag) (seen : bool) (p : prog A) : Prop :=
  match p with
  | Call c k =>
      (writes_limit_or_intent c = true -> c = store f false /\ seen = true) /\
      forall r, clears_only_seen f (seen || read_as_true f c r) (k r)
  | _ => True
  end.

(** Consecutive periods of one thread.  Between two of its periods the
    other threads and the hardware move on, so every period starts in a
    world and with devices of its own; the local state [s] is carried
    over.  The result is the last local state and the calls of each
    period. *)

Fixpoint run_ticks {S : Type} (body : S -> prog S) (s : S)
    (env : list (devices * world)) : option (S * list (list event)) :=
  match env with
  | [] => Some (s, [])
  | (d, w) :: rest =>
      match run d (body s) w with
      | Returned s' w' =>
          match run_ticks body s' rest with
          | Some (s'', evs) => Some (s'', issued w w' :: evs)
          | None => None
          end
      | _ => None
      end
  end.

(** A period in which the axis has no limit to recover from and the
    intent asks for [next]. *)

Definition quiet_rotation (next : actions_rotation) (dw : devices * world) : Prop :=
  unlocked (snd dw) /\
  g_clockwise_limit_reached (mem (snd dw)) = false /\
  -400 <= position (fst dw) rotation_motor /\
  rotation (mem (snd dw)) = next.

Definition quiet_elevation (next : actions_elevation) (dw : devices * world) : Prop :=
  unlocked (snd dw) /\
  g_top_limit_reached (mem (snd dw)) = false /\
  position (fst dw) elevation_motor <= 200 /\
  elevation (mem (snd dw)) = next.

(** ** The calls of one period of the rotation and elevation controllers,
    branch by branch, oldest first.  [k] is the number of times the motor
    is seen running while the controller waits. *)

Definition rotation_relative_log (d : devices) (w : world) (k : nat) : list event :=
  locked new_motors_status_mutex load_rotation (rotation (mem w)) ++
  locked clockwise_mutex (load clockwise_limit_reached) true ++
  locked correction_mutex (store correction_in_progress true) tt ++
  [position_sp d rotation_motor (-350);
   command d rotation_motor RUN_REL_POS;
   Ev (usleep SUSPENSION_TIME) tt] ++
  wait_log d rotation_motor (polls rotation_motor (log w)) k ++
  locked clockwise_mutex (store clockwise_limit_reached false) tt ++
  [duty_cycle_sp d rotation_motor 0;
   command d rotation_motor RUN_DIRECT] ++
  locked correction_mutex (store correction_in_progress false) tt.

Definition elevation_relative_log (d : devices) (w : world) (k : nat) : list event :=
  locked new_motors_status_mutex load_elevation (elevation (mem w)) ++
  locked top_mutex (load top_limit_reached) true ++
  locked correction_mutex (store correction_in_progress true) tt ++
  [position_sp d elevation_motor 100;
   command d elevation_motor RUN_REL_POS;
   Ev (usleep SUSPENSION_TIME) tt] ++
  wait_log d elevation_motor (polls elevation_motor (log w)) k ++
  locked top_mutex (store top_limit_reached false) tt ++
  [duty_cycle_sp d elevation_motor 0;
   command d elevation_motor RUN_DIRECT] ++
  locked correction_mutex (store correction_in_progress false) tt.

Definition rotation_absolute_log (d : devices) (w : world) (k : nat) : list event :=
  locked new_motors_status_mutex load_rotation (rotation (mem w)) ++
  locked clockwise_mutex (load clockwise_limit_reached) false ++
  [Ev (ev3_get_position rotation_motor) (position d rotation_motor)] ++
  locked correction_mutex (store correction_in_progress true) tt ++
  [position_sp d rotation_motor 0;
   command d rotation_motor RUN_ABS_POS;
   Ev (usleep SUSPENSION_TIME) tt] ++
  wait_log d rotation_motor (polls rotation_motor (log w)) k ++
  [duty_cycle_sp d rotation_motor 0;
   command d rotation_motor RUN_DIRECT] ++
  locked correction_mutex (store correction_in_progress false) tt.

Definition elevation_absolute_log (d : devices) (w : world) (k : nat) : list event :=
  locked new_motors_status_mutex load_elevation (elevation (mem w)) ++
  locked top_mutex (load top_limit_reached) false ++
  [Ev (ev3_get_position elevation_motor) (position d elevation_motor)] ++
  locked correction_mutex (store correction_in_progress true) tt ++
  [position_sp d elevation_motor 0;
   command d elevation_motor RUN_ABS_POS;
   Ev (usleep SUSPENSION_TIME) tt] ++
  wait_log d elevation_motor (polls elevation_motor (log w)) k ++
  [duty_cycle_sp d elevation_motor 0;
   command d elevation_motor RUN_DIRECT] ++
  locked correction_mutex (store correction_in_progress false) tt.

Definition rotation_quiet_log (d : devices) (w : world) (actual : actions_rotation)
  : list event :=
  locked new_motors_status_mutex load_rotation (rotation (mem w)) ++
  locked clockwise_mutex (load clockwise_limit_reached) false ++
  [Ev (ev3_get_position rotation_motor) (position d rotation_motor)] ++
  (if actions_rotation_eqb actual (rotation (mem w)) then []
   else [duty_cycle_sp d rotation_motor (rotation_power (rotation (mem w)))]).

Definition elevation_quiet_log (d : devices) (w : world) (actual : actions_elevation)
  : list event :=
  locked new_motors_status_mutex load_elevation (elevation (mem w)) ++
  locked top_mutex (load top_limit_reached) false ++
  [Ev (ev3_get_position elevation_motor) (position d elevation_motor)] ++
  (if actions_elevation_eqb actual (elevation (mem w)) then []
   else [duty_cycle_sp d elevation_motor (elevation_power (elevation (mem w)))]).

(** The globals after a recovery that had to clear [f]. *)

Definition after_recovery (f : flag) (g : globals) : globals :=
  set_flag correction_in_progress false
    (set_flag f false (set_flag correction_in_progress true g)).

Definition after_correction (g : globals) : globals :=
  set_flag correction_in_progress false (set_flag correction_in_progress true g).

(** Calls that leave [close] alone or set it. *)

Definition close_only_set (c : call) : Prop :=
  match c with
  | store close b => b = true
  | _ => True
  end.



Definition no_set_led (c : call) : Prop :=
  match c with
  | ev3_set_led _ _ _ => False
  | _ => True
  end.

(** A program that cannot end the process. *)


(** The calls that hand back a status. *)


(** A program that goes on in the same way whatever status its device
    calls hand back. *)


(** The same hardware with every device call succeeding. *)


(** Two worlds with the same globals and the same calls made, which may
    have handed back different statuses; two runs that end alike in such
    worlds. *)




(** The newest command sent to motor [m], and whether it is a positioned
    move: the motor has been sent on a recovery move and its power has not
    been cut since. *)

Fixpoint last_command (m : motor) (l : list event) : option string :=
  match l with
  | [] => None
  | e :: rest =>
      match ev_call e with
      | ev3_command_motor_by_name m' n =>
          if motor_eqb m' m then Some n else last_command m rest
      | _ => last_command m rest
      end
  end.

Definition in_recovery (m : motor) (l : list event) : bool :=
  match last_command m l with
  | Some n =>
      String.eqb n (COMMANDS_STRING RUN_REL_POS)
      || String.eqb n (COMMANDS_STRING RUN_ABS_POS)
  | None => false
  end.

(** ** What a failure does to a thread *)

(** A run from [w] that ends the process only through the clock_nanosleep
    that closes a period: the sleep has returned non-zero, "Error" is
    printed straight after it and the process exits with EXIT_FAILURE;
    nothing was printed before, and a run that ends in any other way
    prints nothing. *)


(** The same on every path of a program, whatever its calls hand back
    and however the hardware changes between them: the program prints
    only and ends the process only straight after a clock_nanosleep that
    has returned non-zero, by printing "Error" and exiting with
    EXIT_FAILURE. *)



(** The error policy of a thread [p] of activity [a] run on [d] from [w]:
    the status its device calls hand back makes no difference to what it
    does; [close] is true after it only if it was true before, or the
    thread is the button sampler and BACK is pressed; and only a failing
    clock_nanosleep ends the process. *)


(** ** Statements of the specification that the code does not meet *)

(** Scenario S1 as specified: the period sets the duty cycle to -30 and
    sends run-direct to the rotation motor. *)

Definition sets_duty_and_runs_direct (l : list event) : Prop :=
  In (rotation_motor, -30) (duties l) /\
  In (rotation_motor, COMMANDS_STRING RUN_DIRECT) (motor_commands l).

(** A period that reports an error and sets [close]. *)


(** Both LEDs set to full green. *)

Definition leds_set_green (l : list event) : Prop :=
  In (LEFT_LED, GREEN_LED, 255) (led_writes l) /\
  In (RIGHT_LED, GREEN_LED, 255) (led_writes l).

(** ** Sample hardware and worlds *)

(** The values ev3c.h gives the constants main.c takes from it. *)

Definition RUNNING_BIT : Z := 1.
Definition LCD_WIDTH : Z := 178.
Definition LCD_HEIGHT : Z := 128.

(** The world in which the controllers are created. *)

Definition start : world := World initial_globals [].

(** No key pressed, arm at position 0, motors stopped, sensors dark. *)

Definition idle_brick : devices :=
  Devices (fun _ => false) (fun _ => 0) (fun _ => 0) (fun _ _ => 0)
    (fun _ => 900) (fun _ => DEV_OK) (fun _ => true) 0 0 (12, 0, 0).

(** LEFT held, nothing else. *)

Definition left_held : devices :=
  Devices (fun b => match b with BUTTON_LEFT => true | _ => false end)
    (fun _ => 0) (fun _ => 0) (fun _ _ => 0)
    (fun _ => 900) (fun _ => DEV_OK) (fun _ => true) 0 0 (12, 0, 0).

(** LEFT still held a period later, the base having turned to -100. *)

Definition left_held_later : devices :=
  Devices (fun b => match b with BUTTON_LEFT => true | _ => false end)
    (fun _ => -100) (fun _ => 0) (fun _ _ => 0)
    (fun _ => 900) (fun _ => DEV_OK) (fun _ => true) 0 0 (12, 0, 1).

(** The world after the button sampler has seen LEFT held. *)

Definition left_published : world :=
  world_of (run left_held (buttons_tick tt) start).

(** Every device call fails; the color sensor reads 50. *)


(** Every device call fails and the sleep that closes a period is
    interrupted: clock_nanosleep returns 4 (EINTR). *)


(** The arm during calibration: the switch is pressed, the reflection is
    50, the claw motor reports RUNNING + STALLED and then stops. *)

Definition calibrating_brick : devices :=
  Devices (fun _ => false) (fun _ => 0)
    (fun s => match s with color_sensor => 50 | touch_sensor => 1 end)
    (fun m n => match m, n with claw_motor, O => 9 | _, _ => 0 end)
    (fun _ => 900) (fun _ => DEV_OK) (fun _ => true) 0 0 (12, 0, 0).

(** Both limit flags set. *)

Definition both_limits : world :=
  World (Globals ROTATE_STOP ELEVATE_STOP INACTIVE true true false false false) [].

(** Both axes beyond their soft limits; each motor is seen running twice
    before it stops. *)

Definition overshoot_brick : devices :=
  Devices (fun _ => false)
    (fun m => match m with rotation_motor => -450 | _ => 250 end)
    (fun _ => 0) (fun _ n => if (n <? 2)%nat then 1 else 0)
    (fun _ => 900) (fun _ => DEV_OK) (fun _ => true) 0 0 (12, 0, 0).

(** [close] already set. *)

Definition closing : world := World (set_flag close true initial_globals) [].

(** Both sensors at their limit; the rotation motor stops at once, the
    elevation motor keeps running. *)

Definition two_limits_brick : devices :=
  Devices (fun _ => false) (fun _ => 0)
    (fun s => match s with color_sensor => 50 | touch_sensor => 1 end)
    (fun m _ => match m with elevation_motor => 1 | _ => 0 end)
    (fun _ => 900) (fun _ => DEV_OK) (fun _ => true) 0 0 (12, 0, 0).

(** A schedule of the eight controllers (numbered in the order of
    [controllers]) in which the two recoveries overlap: the touch and
    color samplers set their flags; the rotation controller enters its
    recovery and starts the move; the elevation controller enters its own
    and polls its motor once; the LED reporter sees the correction; the
    rotation controller ends its recovery; the LED reporter runs a second
    period. *)

Definition overlapping_recoveries : list (devices * nat) :=
  map (pair two_limits_brick)
    (repeat 2%nat 9 ++ repeat 1%nat 9 ++ repeat 3%nat 16 ++ repeat 4%nat 18 ++
     repeat 6%nat 11 ++ repeat 3%nat 9 ++ repeat 6%nat 11).

(** ** Lock discipline *)

(** The mutex that protects each flag, and the mutex under which a call
    that reads or writes a global has to be made. *)

Definition flag_mutex (f : flag) : mutex :=
  match f with
  | top_limit_reached => top_mutex
  | clockwise_limit_reached => clockwise_mutex
  | close => close_mutex
  | correction_in_progress => correction_mutex
  | claw_used_status => claw_used_mutex
  end.

Definition guard (c : call) : option mutex :=
  match c with
  | load f | store f _ => Some (flag_mutex f)
  | load_rotation | store_rotation _ | load_elevation | store_elevation _
  | load_claw | store_claw _ => Some new_motors_status_mutex
  | _ => None
  end.

(** What a thread that holds [holding] may call next: a lock when it holds
    nothing, the unlock of what it holds, an access to a global under the
    mutex of that global, a read of a key at any time, and anything else
    only when it holds nothing. *)

Definition allowed (holding : option mutex) (c : call) : Prop :=
  match c with
  | pthread_mutex_lock _ => holding = None
  | pthread_mutex_unlock m => holding = Some m
  | ev3_button_pressed _ => True
  | _ =>
      match guard c with
      | Some m => holding = Some m
      | None => holding = None
      end
  end.

Definition after (holding : option mutex) (c : call) : option mutex :=
  match c with
  | pthread_mutex_lock m => Some m
  | pthread_mutex_unlock _ => None
  | _ => holding
  end.

(** A program that keeps to the discipline on every path and holds no
    mutex when it ends. *)

Fixpoint disciplined {A : Type} (holding : option mutex) (p : prog A) : Prop :=
  match p with
  | Call c k => allowed holding c /\ forall r, disciplined (after holding c) (k r)
  | _ => holding = None
  end.

(** A thread with a call left to make. *)

Definition unfinished (p : prog unit) : Prop :=
  match p with
  | Call _ _ => True
  | _ => False
  end.

(** ** Who uses which device and who writes which global *)

Definition motor_owner (m : motor) : activity :=
  match m with
  | rotation_motor => Rotation
  | elevation_motor => Elevation
  | claw_motor => Claw
  end.

Definition sensor_owner (s : sensor) : activity :=
  match s with
  | color_sensor => ColorSensor
  | touch_sensor => TouchSensor
  end.

(** A call of activity [a] on a device is a call on a device of [a], and
    it is none of the calls that load, search, open, reset or initialise a
    device or set the mode of a sensor: those are left to main. *)

Definition own_device (a : activity) (c : call) : Prop :=
  match c with
  | ev3_button_pressed _ => a = Buttons
  | ev3_update_sensor_val s | val_data s => a = sensor_owner s
  | max_speed m | ev3_stop_action_motor_by_name m _ | ev3_set_duty_cycle_sp m _
  | ev3_set_speed_sp m _ | ev3_set_position_sp m _ | ev3_set_position m _
  | ev3_command_motor_by_name m _ | ev3_get_position m | ev3_motor_state m =>
      a = motor_owner m
  | ev3_set_led _ _ _ => a = Leds
  | ev3_clear_lcd | ev3_text_lcd_normal _ _ _ | ev3_circle_lcd _ _ _ _
  | ev3_circle_lcd_out _ _ _ _ | localtime_now => a = Reporter
  | ev3_load_motors | ev3_search_motor_by_port _ | ev3_open_motor _
  | ev3_reset_motor _ | ev3_load_sensors | ev3_search_sensor_by_port _
  | ev3_open_sensor _ | ev3_mode_sensor _ _
  | ev3_init_button | ev3_init_led | ev3_init_lcd => False
  | _ => True
  end.

(** A write of activity [a] into a global is one of the writes of [a]:
    the button sampler publishes the intent and sets [close]; each sensor
    sampler sets its limit flag; each axis controller clears the flag of
    its axis and writes [correction_in_progress]; the claw controller
    writes [claw_used.status] and puts the claw intent back to INACTIVE. *)

Definition own_write (a : activity) (c : call) : Prop :=
  match c with
  | store top_limit_reached b =>
      (a = ColorSensor /\ b = true) \/ (a = Elevation /\ b = false)
  | store clockwise_limit_reached b =>
      (a = TouchSensor /\ b = true) \/ (a = Rotation /\ b = false)
  | store close b => a = Buttons /\ b = true
  | store correction_in_progress _ => a = Rotation \/ a = Elevation
  | store claw_used_status _ => a = Claw
  | store_rotation _ | store_elevation _ => a = Buttons
  | store_claw x => a = Buttons \/ (a = Claw /\ x = INACTIVE)
  | _ => True
  end.

(** ** Wake-up times *)

(** The times passed to clock_nanosleep among some calls. *)

Fixpoint wakeups (l : list event) : list Z :=
  match l with
  | [] => []
  | e :: rest =>
      match ev_call e with
      | clock_nanosleep t => t :: wakeups rest
      | _ => wakeups rest
      end
  end.

(** The first [n] points after [t] of the grid of step [period]. *)


(** A program whose sleeps, on every path, are asked for at [t + period],
    [t + 2 period], and so on. *)



(** ** Frames *)

(** Two states of the globals that differ at most in flag [f]. *)

Definition untouched_but (f : flag) (g g' : globals) : Prop :=
  rotation g' = rotation g /\ elevation g' = elevation g /\ claw g' = claw g /\
  forall f', f' <> f -> get_flag f' g' = get_flag f' g.

(** ** The calls of one period of the claw controller, oldest first *)

Definition claw_close_log (d : devices) : list event :=
  locked new_motors_status_mutex load_claw ACTIVE ++
  [duty_cycle_sp d claw_motor (-40);
   command d claw_motor RUN_DIRECT;
   Ev (usleep 500000) tt;
   duty_cycle_sp d claw_motor 0] ++
  locked claw_used_mutex (store claw_used_status true) tt ++
  locked new_motors_status_mutex (store_claw INACTIVE) tt.

Definition claw_open_log (d : devices) (w : world) (k : nat) : list event :=
  locked new_motors_status_mutex load_claw ACTIVE ++
  [position_sp d claw_motor 0;
   command d claw_motor RUN_ABS_POS;
   Ev (usleep SUSPENSION_TIME) tt] ++
  wait_log d claw_motor (polls claw_motor (log w)) k ++
  [duty_cycle_sp d claw_motor 0;
   command d claw_motor RUN_DIRECT] ++
  locked claw_used_mutex (store claw_used_status false) tt ++
  locked new_motors_status_mutex (store_claw INACTIVE) tt.

(** The globals after the claw controller has acted on an ACTIVE intent. *)

Definition after_toggle (closed : bool) (g : globals) : globals :=
  set_claw INACTIVE (set_flag claw_used_status closed g).

(** The values stored into the claw intent among some calls, oldest
    first when the calls are. *)


(** The button sampler (thread 0) and the claw controller (thread 1),
    each at the head of its loop, in the order their periods give when
    CENTER is held: the sampler runs a period and sleeps (17 calls); the
    claw controller reads the intent and starts to close, up to its sleep
    of 500 ms (9 calls); the sampler, whose period is 180 ms, runs its
    next period meanwhile (16 calls); the claw controller wakes up and
    finishes its period (7 calls). *)


(** A period in which the axis has a limit to recover from, by its sensor
    or by its position, and the motor stops after [k] readings. *)

Definition recovering_rotation (MOTOR_RUNNING : Z) (k : nat) (dw : devices * world)
  : Prop :=
  unlocked (snd dw) /\
  stops_after MOTOR_RUNNING (fst dw) rotation_motor (log (snd dw)) k /\
  (g_clockwise_limit_reached (mem (snd dw)) = true \/
   (g_clockwise_limit_reached (mem (snd dw)) = false /\
    position (fst dw) rotation_motor < -400)).

Definition recovering_elevation (MOTOR_RUNNING : Z) (k : nat) (dw : devices * world)
  : Prop :=
  unlocked (snd dw) /\
  stops_after MOTOR_RUNNING (fst dw) elevation_motor (log (snd dw)) k /\
  (g_top_limit_reached (mem (snd dw)) = true \/
   (g_top_limit_reached (mem (snd dw)) = false /\
    200 < position (fst dw) elevation_motor)).

(** ** The start of main *)

(** The pointers main tests before it goes on: every load, search and
    open but the searches of the elevation and claw motors, whose result
    is not tested (the tests after them look at [rotation_motor]). *)

Definition startup_checks (d : devices) : bool :=
  non_null d ev3_load_motors
  && non_null d (ev3_search_motor_by_port rotation_motor)
  && non_null d (ev3_open_motor rotation_motor)
  && non_null d (ev3_open_motor elevation_motor)
  && non_null d (ev3_open_motor claw_motor)
  && non_null d ev3_load_sensors
  && non_null d (ev3_search_sensor_by_port touch_sensor)
  && non_null d (ev3_open_sensor touch_sensor)
  && non_null d (ev3_search_sensor_by_port color_sensor)
  && non_null d (ev3_open_sensor color_sensor).

(** The calls that end the start of main: the mode of the color sensor and
    the initialisation of the keys, the LEDs and the display. *)

Definition is_init (c : call) : bool :=
  match c with
  | ev3_mode_sensor _ _ | ev3_init_button | ev3_init_led | ev3_init_lcd => true
  | _ => false
  end.

(** ** How a thread ends *)

(** On every path on which the program returns, the calls it has made,
    newest first and after [recent], satisfy [Q]. *)

Fixpoint returns_after {A : Type} (Q : list call -> Prop) (recent : list call)
    (p : prog A) : Prop :=
  match p with
  | Ret _ => Q recent
  | Call c k => forall r, returns_after Q (c :: recent) (k r)
  | _ => True
  end.

(** The last three calls of a calibration: power cut in direct drive and
    the position counter put to 0. *)

Definition calibrated (m : motor) (l : list call) : Prop :=
  exists rest,
    l = ev3_set_position m 0
        :: ev3_command_motor_by_name m (COMMANDS_STRING RUN_DIRECT)
        :: ev3_set_duty_cycle_sp m 0 :: rest.

(** The initializer of each motor, with the period main gives it. *)

Definition initializer (MOTOR_RUNNING : Z) (fuel : nat) (m : motor) : prog unit :=
  match m with
  | rotation_motor => rotation_motor_initializer MOTOR_RUNNING fuel MOTOR_PERIOD
  | elevation_motor => elevation_motor_initializer MOTOR_RUNNING fuel MOTOR_PERIOD
  | claw_motor => claw_motor_initializer MOTOR_RUNNING fuel MOTOR_PERIOD
  end.

(** ** Parking *)

(** The calls that send motor [m] to position 0 and wait for it, when it
    is seen running [k] times. *)

Definition park_log (d : devices) (w : world) (m : motor) (k : nat) : list event :=
  [position_sp d m 0;
   command d m RUN_ABS_POS;
   Ev (usleep SUSPENSION_TIME) tt] ++
  wait_log d m (polls m (log w)) k.

Definition reset (d : devices) (m : motor) : event :=
  Ev (ev3_reset_motor m) (call_status d (ev3_reset_motor m)).

(** ** The correction flag, thread by thread *)

(** What a call writes into [correction_in_progress], if it writes it. *)

Definition correction_write (c : call) : option bool :=
  match c with
  | store correction_in_progress b => Some b
  | _ => None
  end.

(** A thread that writes [correction_in_progress] alternately true and
    false, starting with true when [inside] is false, and does not return
    between a true and the false that follows it. *)

Fixpoint alternates {A : Type} (inside : bool) (p : prog A) : Prop :=
  match p with
  | Ret _ => inside = false
  | Call c k =>
      match correction_write c with
      | Some b => b = negb inside /\ forall r, alternates b (k r)
      | None => forall r, alternates inside (k r)
      end
  | _ => True
  end.

(** A thread in the middle of a correction: it does not return before it
    has written the flag again, and the next thing it writes into the flag
    is false. *)

Fixpoint owes_clear {A : Type} (p : prog A) : Prop :=
  match p with
  | Ret _ => False
  | Call c k =>
      match correction_write c with
      | Some b => b = false
      | None => forall r, owes_clear (k r)
      end
  | _ => True
  end.

(** ** Invariants of the thread pool *)

(** The threads [ts] hold the mutexes [hs], each keeps to the discipline
    from there on, and every mutex the log shows as held is held by one of
    them. *)

Definition consistent (hs : list (option mutex)) (ts : list (prog unit))
    (l : list event) : Prop :=
  Forall2 (fun h p => disciplined h p) hs ts /\
  forall m, held m l = true -> In (Some m) hs.

(** The threads [ts] are inside ([true]) or outside ([false]) a
    correction as [bs] says, and one of them is inside when the flag is
    true. *)

Definition correcting (bs : list bool) (ts : list (prog unit)) (g : globals) :
    Prop :=
  Forall2 (fun b p => alternates b p) bs ts /\
  (g_correction_in_progress g = true -> In true bs).


(** ** More sample hardware and worlds *)

(** CENTER held, nothing else; the motors are stopped. *)

Definition center_held : devices :=
  Devices (fun b => match b with BUTTON_CENTER => true | _ => false end)
    (fun _ => 0) (fun _ => 0) (fun _ _ => 0)
    (fun _ => 900) (fun _ => DEV_OK) (fun _ => true) 0 0 (12, 0, 0).

(** The claw intent raised. *)

Definition claw_requested : world :=
  World (Globals ROTATE_STOP ELEVATE_STOP ACTIVE false false false false false) [].

(** The rotation initializer running alone on the calibrating arm until it
    returns. *)

Definition lone_calibration : list (devices * nat) :=
  map (pair calibrating_brick) (repeat 0%nat 18).

(** The start of [overlapping_recoveries]: the two samplers have set their
    flags and the rotation controller has entered its recovery and started
    the move. *)

Definition rotation_recovering : list (devices * nat) :=
  map (pair two_limits_brick) (repeat 2%nat 9 ++ repeat 1%nat 9 ++ repeat 3%nat 16).

(** * Properties *)

(** ** Runs and the calls they make *)

Section Runs.

Variable d : devices.

Lemma exec_log (c : call) (r : result c) (w w' : world) :
  exec d c w = Some (r, w') -> log w' = Ev c r :: log w.
Proof.
  unfold exec.
  destruct (answer d (log w) (mem w) c) as [[r0 g]|]; [|discriminate].
  intros H; inversion H; reflexivity.
Qed.

Lemma run_bind {A B : Type} (p : prog A) (f : A -> prog B) (w : world) :
  run d (bind p f) w =
  match run d p w with
  | Returned a w' => run d (f a) w'
  | Exited code w' => Exited code w'
  | Blocked w' => Blocked w'
  | Spinning w' => Spinning w'
  end.
Proof.
  revert w; induction p as [a|c k IH|code|]; intros w; cbn; trivial.
  destruct (exec d c w) as [[r w']|]; [apply IH | reflexivity].
Qed.

Lemma run_calls {A : Type} (P : call -> Prop) (p : prog A) :
  all_calls P p ->
  forall w, exists new,
    log (world_of (run d p w)) = new ++ log w /\
    Forall (fun e => P (ev_call e)) new.
Proof.
  induction p as [a|c k IH|code|]; intros Hp w; cbn;
    try (exists []; split; [reflexivity | constructor]).
  destruct Hp as [Hc Hk].
  destruct (exec d c w) as [[r w']|] eqn:E.
  - destruct (IH r (Hk r) w') as (new & Hlog & Hall).
    exists (new ++ [Ev c r]); split.
    + rewrite Hlog, (exec_log c r w w' E), <- app_assoc; reflexivity.
    + apply Forall_app; split; [exact Hall | repeat constructor; exact Hc].
  - exists []; split; [reflexivity | constructor].
Qed.

End Runs.

Lemma issued_extends (w w' : world) (new : list event) :
  log w' = new ++ log w -> issued w w' = rev new.
Proof.
  intros H; unfold issued; rewrite H, length_app, Nat.add_sub.
  rewrite firstn_app, Nat.sub_diag, firstn_all; cbn.
  rewrite app_nil_r; reflexivity.
Qed.

Lemma issued_calls (d : devices) {A : Type} (P : call -> Prop) (p : prog A) (w : world) :
  all_calls P p ->
  Forall (fun e => P (ev_call e)) (issued w (world_of (run d p w))).
Proof.
  intros Hp; destruct (run_calls d P p Hp w) as (new & Hlog & Hall).
  rewrite (issued_extends _ _ _ Hlog); apply Forall_rev; exact Hall.
Qed.

(** ** Building blocks of [all_calls] *)

Lemma all_calls_bind {A B : Type} (P : call -> Prop) (p : prog A) (f : A -> prog B) :
  all_calls P p -> (forall a, all_calls P (f a)) -> all_calls P (bind p f).
Proof.
  induction p as [a|c k IH|code|]; cbn; intros Hp Hf; auto.
  destruct Hp as [Hc Hk]; split; [exact Hc | intros r; apply IH; auto].
Qed.

Lemma all_calls_weaken {A : Type} (P Q : call -> Prop) (p : prog A) :
  (forall c, P c -> Q c) -> all_calls P p -> all_calls Q p.
Proof.
  intros HPQ; induction p as [a|c k IH|code|]; cbn; auto.
  intros [Hc Hk]; split; auto.
Qed.

Lemma all_calls_wait (P : call -> Prop) (MR : Z) (m : motor) (fuel : nat) :
  P (ev3_motor_state m) -> P (usleep CHECK_STATE_TIME) ->
  all_calls P (wait_while_running MR fuel m).
Proof.
  intros Hs Hu; induction fuel as [|n IH]; cbn; [exact I|].
  split; [exact Hs | intros st].
  destruct (Z.land st MR =? 0); cbn; auto.
Qed.

Lemma all_calls_periodic {S : Type} (P : call -> Prop) (period : Z)
    (body : S -> prog S) (iters : nat) :
  P (pthread_mutex_lock close_mutex) -> P (load close) ->
  P (pthread_mutex_unlock close_mutex) ->
  (forall t, P (clock_nanosleep t)) -> (forall t, P (printf t)) ->
  (forall s, all_calls P (body s)) ->
  forall next_time s, all_calls P (periodic iters period body next_time s).
Proof.
  intros Hl Hr Hu Hs Hp Hb; induction iters as [|n IH]; intros t s; cbn; [exact I|].
  split; [exact Hl | intros _]. split; [exact Hr | intros stop].
  split; [exact Hu | intros _]. destruct stop; cbn; [exact I|].
  apply all_calls_bind; [apply Hb | intros s'].
  cbn. split; [apply Hs | intros r].
  destruct (r =? 0); cbn; [apply IH | split; [apply Hp | intros _; exact I]].
Qed.

(** Splits a goal [all_calls P p] along the text of [p]. *)

Ltac calls :=
  repeat (cbn;
    match goal with
    | |- _ /\ _ => split
    | |- forall _, _ => intro
    | |- True => exact I
    | |- all_calls _ (bind _ _) => apply all_calls_bind
    | |- all_calls _ (wait_while_running _ _ _) => apply all_calls_wait
    | |- all_calls _ (if ?b then _ else _) => destruct b
    | |- all_calls _ (match ?x with _ => _ end) => destruct x
    end).

Ltac in_range :=
  split; [reflexivity |
    first [left; reflexivity | right; left; reflexivity
          | right; right; reflexivity | right; reflexivity]].

(** ** Duty cycles *)

Lemma duties_Forall (ok : motor * Z -> Prop) (l : list event) :
  Forall (fun e => duty_calls ok (ev_call e)) l -> Forall ok (duties l).
Proof.
  induction 1 as [|e l He _ IH]; cbn; [constructor|].
  destruct e as [c r]; destruct c; cbn in *; auto.
Qed.

Lemma rotation_tick_duty (MOTOR_RUNNING : Z) (fuel : nat) (a : actions_rotation) :
  all_calls (duty_calls rotation_duty_ok) (rotation_tick MOTOR_RUNNING fuel a).
Proof. unfold rotation_tick; calls; in_range. Qed.

Lemma elevation_tick_duty (MOTOR_RUNNING : Z) (fuel : nat) (a : actions_elevation) :
  all_calls (duty_calls elevation_duty_ok) (elevation_tick MOTOR_RUNNING fuel a).
Proof. unfold elevation_tick; calls; in_range. Qed.

Lemma claw_tick_duty (MOTOR_RUNNING : Z) (fuel : nat) (claw_open : bool) :
  all_calls (duty_calls claw_duty_ok) (claw_tick MOTOR_RUNNING fuel claw_open).
Proof. unfold claw_tick; calls; in_range. Qed.

(** C1. In one period of a motor controller, from any globals (so any
    intent), any local state and any hardware, every duty-cycle setpoint
    goes to the controller's own motor and is +30, -30 or 0 for the
    rotation, -30, +20 or 0 for the elevation, and -40 or 0 for the claw. *)
Theorem duty_cycle_in_range (MOTOR_RUNNING : Z) (d : devices) (fuel : nat) (w : world) :
  (forall rotation_actual,
     Forall rotation_duty_ok
       (duties (issued w (world_of
          (run d (rotation_tick MOTOR_RUNNING fuel rotation_actual) w))))) /\
  (forall elevation_actual,
     Forall elevation_duty_ok
       (duties (issued w (world_of
          (run d (elevation_tick MOTOR_RUNNING fuel elevation_actual) w))))) /\
  (forall claw_open,
     Forall claw_duty_ok
       (duties (issued w (world_of
          (run d (claw_tick MOTOR_RUNNING fuel claw_open) w))))).
Proof.
  repeat split; intros; apply duties_Forall, issued_calls;
    [apply rotation_tick_duty | apply elevation_tick_duty | apply claw_tick_duty].
Qed.

(** ** The polling loop *)

Lemma motor_eqb_refl (m : motor) : motor_eqb m m = true.
Proof. destruct m; reflexivity. Qed.

Lemma run_wait (MOTOR_RUNNING : Z) (d : devices) (m : motor) (k : nat) :
  forall (fuel : nat) (w : world),
    (k < fuel)%nat ->
    stops_after MOTOR_RUNNING d m (log w) k ->
    run d (wait_while_running MOTOR_RUNNING fuel m) w =
    Returned tt (World (mem w) (rev (wait_log d m (polls m (log w)) k) ++ log w)).
Proof.
  induction k as [|k IH]; intros fuel w Hfuel [Hbusy Hidle];
    (destruct fuel as [|n]; [lia|]); cbn.
  - rewrite Nat.add_0_r in Hidle; rewrite Hidle; destruct w; reflexivity.
  - assert (H0 := Hbusy O ltac:(lia)); rewrite Nat.add_0_r in H0.
    apply Z.eqb_neq in H0; rewrite H0; cbn.
    rewrite IH; simpl; [| lia |].
    + rewrite motor_eqb_refl, <- !app_assoc; reflexivity.
    + unfold stops_after; simpl; rewrite motor_eqb_refl; split.
      * intros j Hj. replace (S (polls m (log w)) + j)%nat
          with (polls m (log w) + S j)%nat by lia. apply Hbusy; lia.
      * replace (S (polls m (log w)) + k)%nat
          with (polls m (log w) + S k)%nat by lia. exact Hidle.
Qed.

Lemma held_wait_log (x : mutex) (d : devices) (m : motor) (k : nat) :
  forall (n : nat) (l : list event),
    held x (rev (wait_log d m n k) ++ l) = held x l.
Proof.
  induction k as [|k IH]; intros n l; simpl; [reflexivity|].
  rewrite <- !app_assoc, IH; reflexivity.
Qed.

(** Runs a program symbolically up to the next loop. *)

Ltac go H :=
  unfold unlocked in H;
  repeat (progress (cbn; try unfold exec; cbn; rewrite ?held_wait_log, ?H;
    repeat match goal with E : keypad _ _ = _ |- _ => rewrite E end)).

(** Compares the log of a run with the expected one. *)

Ltac same_log :=
  unfold after_recovery, after_correction; cbn;
  repeat match goal with
         | E : _ (mem _) = _ |- _ => rewrite E
         end;
  unfold rotation_relative_log, elevation_relative_log, rotation_absolute_log,
    elevation_absolute_log, rotation_quiet_log, elevation_quiet_log, locked;
  repeat (progress (rewrite ?rev_app_distr, <- ?app_assoc; cbn)); reflexivity.

(** ** One period of the rotation and elevation controllers, by branch *)

Section Branches.

Variable MOTOR_RUNNING : Z.
Variable d : devices.
Variables fuel k : nat.
Variable w : world.
Hypothesis Hfree : unlocked w.
Hypothesis Hfuel : (k < fuel)%nat.

Lemma rotation_sensor_recovery (rotation_actual : actions_rotation) :
  g_clockwise_limit_reached (mem w) = true ->
  stops_after MOTOR_RUNNING d rotation_motor (log w) k ->
  run d (rotation_tick MOTOR_RUNNING fuel rotation_actual) w =
  Returned ROTATE_STOP
    (World (after_recovery clockwise_limit_reached (mem w))
       (rev (rotation_relative_log d w k) ++ log w)).
Proof.
  intros Hflag Hstop.
  unfold rotation_tick, is_clockwise_limit_reached, set_correction.
  go Hfree. rewrite Hflag. go Hfree.
  rewrite run_bind, (run_wait _ _ _ k); [| exact Hfuel | exact Hstop].
  go Hfree. same_log.
Qed.

Lemma elevation_sensor_recovery (elevation_actual : actions_elevation) :
  g_top_limit_reached (mem w) = true ->
  stops_after MOTOR_RUNNING d elevation_motor (log w) k ->
  run d (elevation_tick MOTOR_RUNNING fuel elevation_actual) w =
  Returned ELEVATE_STOP
    (World (after_recovery top_limit_reached (mem w))
       (rev (elevation_relative_log d w k) ++ log w)).
Proof.
  intros Hflag Hstop.
  unfold elevation_tick, is_top_limit_reached, set_correction.
  go Hfree. rewrite Hflag. go Hfree.
  rewrite run_bind, (run_wait _ _ _ k); [| exact Hfuel | exact Hstop].
  go Hfree. same_log.
Qed.

Lemma rotation_soft_recovery (rotation_actual : actions_rotation) :
  g_clockwise_limit_reached (mem w) = false ->
  position d rotation_motor < -400 ->
  stops_after MOTOR_RUNNING d rotation_motor (log w) k ->
  run d (rotation_tick MOTOR_RUNNING fuel rotation_actual) w =
  Returned ROTATE_STOP
    (World (after_correction (mem w))
       (rev (rotation_absolute_log d w k) ++ log w)).
Proof.
  intros Hflag Hpos Hstop.
  unfold rotation_tick, is_clockwise_limit_reached, set_correction.
  go Hfree. rewrite Hflag. go Hfree.
  apply Z.ltb_lt in Hpos; unfold TOP_LEFT_POS; rewrite Hpos. go Hfree.
  rewrite run_bind, (run_wait _ _ _ k); [| exact Hfuel | exact Hstop].
  go Hfree. same_log.
Qed.

Lemma elevation_soft_recovery (elevation_actual : actions_elevation) :
  g_top_limit_reached (mem w) = false ->
  200 < position d elevation_motor ->
  stops_after MOTOR_RUNNING d elevation_motor (log w) k ->
  run d (elevation_tick MOTOR_RUNNING fuel elevation_actual) w =
  Returned ELEVATE_STOP
    (World (after_correction (mem w))
       (rev (elevation_absolute_log d w k) ++ log w)).
Proof.
  intros Hflag Hpos Hstop.
  unfold elevation_tick, is_top_limit_reached, set_correction.
  go Hfree. rewrite Hflag. go Hfree.
  apply Z.gtb_lt in Hpos; unfold TOP_BOTTOM_POS; rewrite Hpos. go Hfree.
  rewrite run_bind, (run_wait _ _ _ k); [| exact Hfuel | exact Hstop].
  go Hfree. same_log.
Qed.

End Branches.

Lemma actions_rotation_eqb_eq (a b : actions_rotation) :
  actions_rotation_eqb a b = true <-> a = b.
Proof. destruct a, b; cbn; split; congruence. Qed.

Lemma actions_elevation_eqb_eq (a b : actions_elevation) :
  actions_elevation_eqb a b = true <-> a = b.
Proof. destruct a, b; cbn; split; congruence. Qed.

Lemma rotation_quiet_tick (MOTOR_RUNNING : Z) (fuel : nat) (d : devices) (w : world)
    (actual next : actions_rotation) :
  quiet_rotation next (d, w) ->
  run d (rotation_tick MOTOR_RUNNING fuel actual) w =
  Returned next (World (mem w) (rev (rotation_quiet_log d w actual) ++ log w)).
Proof.
  intros (Hfree & Hflag & Hpos & Hnext); cbn [fst snd] in *.
  unfold rotation_tick, is_clockwise_limit_reached, rotation_quiet_log.
  go Hfree. rewrite Hflag. go Hfree.
  apply Z.ltb_ge in Hpos; unfold TOP_LEFT_POS; rewrite Hpos.
  destruct (actions_rotation_eqb actual (rotation (mem w))) eqn:E; cbn.
  - apply actions_rotation_eqb_eq in E; subst; destruct w; reflexivity.
  - subst next; destruct (rotation (mem w)); go Hfree; destruct w; reflexivity.
Qed.

Lemma elevation_quiet_tick (MOTOR_RUNNING : Z) (fuel : nat) (d : devices) (w : world)
    (actual next : actions_elevation) :
  quiet_elevation next (d, w) ->
  run d (elevation_tick MOTOR_RUNNING fuel actual) w =
  Returned next (World (mem w) (rev (elevation_quiet_log d w actual) ++ log w)).
Proof.
  intros (Hfree & Hflag & Hpos & Hnext); cbn [fst snd] in *.
  unfold elevation_tick, is_top_limit_reached, elevation_quiet_log.
  go Hfree. rewrite Hflag. go Hfree.
  assert (Hle : (position d elevation_motor >? TOP_BOTTOM_POS) = false).
  { unfold TOP_BOTTOM_POS; rewrite Z.gtb_ltb; apply Z.ltb_ge; exact Hpos. }
  rewrite Hle.
  destruct (actions_elevation_eqb actual (elevation (mem w))) eqn:E; cbn.
  - apply actions_elevation_eqb_eq in E; subst; destruct w; reflexivity.
  - subst next; destruct (elevation (mem w)); go Hfree; destruct w; reflexivity.
Qed.

(** ** Recovery after a sensor limit *)

(** C2. When the limit flag of its sensor is set, the rotation (resp.
    elevation) controller asks for a relative move of -350 (resp. +100),
    waits until the motor no longer reports RUNNING, clears the flag, sets
    the duty cycle to 0 and ends with its current action at STOP.  The
    position of the motor is any: the branch is taken whether or not the
    soft limit is passed too, and the position is not even read. *)
Theorem sensor_limit_recovery (MOTOR_RUNNING : Z) (d : devices) (fuel k : nat) (w : world) :
  unlocked w ->
  (k < fuel)%nat ->
  (forall rotation_actual,
     g_clockwise_limit_reached (mem w) = true ->
     stops_after MOTOR_RUNNING d rotation_motor (log w) k ->
     run d (rotation_tick MOTOR_RUNNING fuel rotation_actual) w =
     Returned ROTATE_STOP
       (World (after_recovery clockwise_limit_reached (mem w))
          (rev (rotation_relative_log d w k) ++ log w))) /\
  (forall elevation_actual,
     g_top_limit_reached (mem w) = true ->
     stops_after MOTOR_RUNNING d elevation_motor (log w) k ->
     run d (elevation_tick MOTOR_RUNNING fuel elevation_actual) w =
     Returned ELEVATE_STOP
       (World (after_recovery top_limit_reached (mem w))
          (rev (elevation_relative_log d w k) ++ log w))).
Proof.
  intros Hfree Hfuel; split; intros actual Hflag Hstop.
  - apply rotation_sensor_recovery; assumption.
  - apply elevation_sensor_recovery; assumption.
Qed.

(** ** The button sampler *)

(** C6. One period of the button sampler publishes, for every state of the
    keypad, the intent of the specification, and writes its three fields
    between one lock and one unlock of the intent mutex. *)
Theorem buttons_publish_intent (d : devices) (w : world) :
  unlocked w ->
  let left := keypad d BUTTON_LEFT in
  let right := keypad d BUTTON_RIGHT in
  let up := keypad d BUTTON_UP in
  let down := keypad d BUTTON_DOWN in
  let center := keypad d BUTTON_CENTER in
  let back := keypad d BUTTON_BACK in
  let intent :=
    set_claw (spec_claw center)
      (set_elevation (spec_elevation up down)
         (set_rotation (spec_rotation left right) (mem w))) in
  run d (buttons_tick tt) w =
  Returned tt
    (World
       (if back then set_flag close true intent else intent)
       (rev
          ([Ev (pthread_mutex_lock new_motors_status_mutex) tt;
            Ev (ev3_button_pressed BUTTON_LEFT) left;
            Ev (ev3_button_pressed BUTTON_RIGHT) right;
            Ev (store_rotation (spec_rotation left right)) tt;
            Ev (ev3_button_pressed BUTTON_UP) up;
            Ev (ev3_button_pressed BUTTON_DOWN) down;
            Ev (store_elevation (spec_elevation up down)) tt;
            Ev (ev3_button_pressed BUTTON_CENTER) center;
            Ev (store_claw (spec_claw center)) tt;
            Ev (pthread_mutex_unlock new_motors_status_mutex) tt;
            Ev (pthread_mutex_lock close_mutex) tt;
            Ev (ev3_button_pressed BUTTON_BACK) back] ++
           (if back then [Ev (store close true) tt] else []) ++
           [Ev (pthread_mutex_unlock close_mutex) tt])
        ++ log w)).
Proof.
  intros Hfree; cbv zeta; unfold buttons_tick.
  destruct (keypad d BUTTON_LEFT) eqn:EL, (keypad d BUTTON_RIGHT) eqn:ER,
    (keypad d BUTTON_UP) eqn:EU, (keypad d BUTTON_DOWN) eqn:ED,
    (keypad d BUTTON_CENTER) eqn:EC, (keypad d BUTTON_BACK) eqn:EB;
    go Hfree; reflexivity.
Qed.

(** ** What the logs of the branches contain *)

Lemma issued_rev (w : world) (g : globals) (l : list event) :
  issued w (World g (rev l ++ log w)) = l.
Proof. rewrite (issued_extends w _ (rev l)); [apply rev_involutive | reflexivity]. Qed.

Lemma wait_log_calls (P : call -> Prop) (d : devices) (m : motor) (k : nat) :
  P (ev3_motor_state m) -> P (usleep CHECK_STATE_TIME) ->
  forall n, Forall (fun e => P (ev_call e)) (wait_log d m n k).
Proof.
  intros Hs Hu; induction k as [|k IH]; intros n; cbn; repeat constructor; auto.
Qed.

Lemma duties_app (l l' : list event) : duties (l ++ l') = duties l ++ duties l'.
Proof.
  induction l as [|e l IH]; cbn; [reflexivity|].
  destruct (duty_of e); cbn; rewrite IH; reflexivity.
Qed.

Lemma motor_commands_app (l l' : list event) :
  motor_commands (l ++ l') = motor_commands l ++ motor_commands l'.
Proof.
  induction l as [|e l IH]; cbn; [reflexivity|].
  destruct (ev_call e); cbn; rewrite ?IH; reflexivity.
Qed.

Lemma rotation_quiet_duties (d : devices) (w : world) (actual : actions_rotation) :
  duties (rotation_quiet_log d w actual) =
  if actions_rotation_eqb actual (rotation (mem w)) then []
  else [(rotation_motor, rotation_power (rotation (mem w)))].
Proof.
  unfold rotation_quiet_log; rewrite !duties_app; cbn.
  destruct (actions_rotation_eqb actual (rotation (mem w))); reflexivity.
Qed.

Lemma elevation_quiet_duties (d : devices) (w : world) (actual : actions_elevation) :
  duties (elevation_quiet_log d w actual) =
  if actions_elevation_eqb actual (elevation (mem w)) then []
  else [(elevation_motor, elevation_power (elevation (mem w)))].
Proof.
  unfold elevation_quiet_log; rewrite !duties_app; cbn.
  destruct (actions_elevation_eqb actual (elevation (mem w))); reflexivity.
Qed.

Lemma actions_rotation_eqb_refl (a : actions_rotation) : actions_rotation_eqb a a = true.
Proof. destruct a; reflexivity. Qed.

Lemma actions_elevation_eqb_refl (a : actions_elevation) : actions_elevation_eqb a a = true.
Proof. destruct a; reflexivity. Qed.

(** ** The same intent over several periods *)

Lemma rotation_stays_quiet (MOTOR_RUNNING : Z) (fuel : nat) (next : actions_rotation)
    (env : list (devices * world)) :
  Forall (quiet_rotation next) env ->
  exists rest,
    run_ticks (rotation_tick MOTOR_RUNNING fuel) next env = Some (next, rest) /\
    List.length rest = List.length env /\
    Forall (fun calls => duties calls = []) rest.
Proof.
  induction 1 as [|[d w] env Hq _ (rest & Hrun & Hlen & Hall)]; cbn [run_ticks].
  - exists []; repeat split; constructor.
  - rewrite (rotation_quiet_tick MOTOR_RUNNING fuel d w next next Hq), Hrun.
    eexists; repeat split; [cbn; rewrite Hlen; reflexivity|].
    constructor; [| exact Hall].
    rewrite issued_rev, rotation_quiet_duties.
    destruct Hq as (_ & _ & _ & Hn); cbn in Hn; rewrite Hn.
    rewrite actions_rotation_eqb_refl; reflexivity.
Qed.

Lemma elevation_stays_quiet (MOTOR_RUNNING : Z) (fuel : nat) (next : actions_elevation)
    (env : list (devices * world)) :
  Forall (quiet_elevation next) env ->
  exists rest,
    run_ticks (elevation_tick MOTOR_RUNNING fuel) next env = Some (next, rest) /\
    List.length rest = List.length env /\
    Forall (fun calls => duties calls = []) rest.
Proof.
  induction 1 as [|[d w] env Hq _ (rest & Hrun & Hlen & Hall)]; cbn [run_ticks].
  - exists []; repeat split; constructor.
  - rewrite (elevation_quiet_tick MOTOR_RUNNING fuel d w next next Hq), Hrun.
    eexists; repeat split; [cbn; rewrite Hlen; reflexivity|].
    constructor; [| exact Hall].
    rewrite issued_rev, elevation_quiet_duties.
    destruct Hq as (_ & _ & _ & Hn); cbn in Hn; rewrite Hn.
    rewrite actions_elevation_eqb_refl; reflexivity.
Qed.

(** C7. Over consecutive periods of the rotation (resp. elevation)
    controller in which no limit holds and the intent of the axis stays
    [next], only the first period can set the duty cycle: it does so when
    the current action differs from [next], and every later period sets
    none. *)
Theorem same_intent_one_command (MOTOR_RUNNING : Z) (fuel : nat) :
  (forall next actual dw env,
     quiet_rotation next dw ->
     Forall (quiet_rotation next) env ->
     exists first rest,
       run_ticks (rotation_tick MOTOR_RUNNING fuel) actual (dw :: env)
         = Some (next, first :: rest) /\
       List.length rest = List.length env /\
       duties first =
         (if actions_rotation_eqb actual next then []
          else [(rotation_motor, rotation_power next)]) /\
       Forall (fun calls => duties calls = []) rest) /\
  (forall next actual dw env,
     quiet_elevation next dw ->
     Forall (quiet_elevation next) env ->
     exists first rest,
       run_ticks (elevation_tick MOTOR_RUNNING fuel) actual (dw :: env)
         = Some (next, first :: rest) /\
       List.length rest = List.length env /\
       duties first =
         (if actions_elevation_eqb actual next then []
          else [(elevation_motor, elevation_power next)]) /\
       Forall (fun calls => duties calls = []) rest).
Proof.
  split; intros next actual [d w] env Hq Henv.
  - destruct (rotation_stays_quiet MOTOR_RUNNING fuel next env Henv)
      as (rest & Hrun & Hlen & Hall).
    cbn [run_ticks]; rewrite (rotation_quiet_tick MOTOR_RUNNING fuel d w actual next Hq), Hrun.
    do 2 eexists; repeat split; [exact Hlen | | exact Hall].
    rewrite issued_rev, rotation_quiet_duties.
    destruct Hq as (_ & _ & _ & Hn); cbn in Hn; rewrite Hn; reflexivity.
  - destruct (elevation_stays_quiet MOTOR_RUNNING fuel next env Henv)
      as (rest & Hrun & Hlen & Hall).
    cbn [run_ticks]; rewrite (elevation_quiet_tick MOTOR_RUNNING fuel d w actual next Hq), Hrun.
    do 2 eexists; repeat split; [exact Hlen | | exact Hall].
    rewrite issued_rev, elevation_quiet_duties.
    destruct Hq as (_ & _ & _ & Hn); cbn in Hn; rewrite Hn; reflexivity.
Qed.

(** ** Scenario S1: LEFT held after calibration *)

(** C8, amended. At the first period in which the rotation controller sees
    the intent LEFT, with its current action still STOP and no limit, it
    sets the duty cycle of the rotation motor to -30 once and sends the
    motor no command at all: no run-direct is issued in that period. *)
Theorem first_left_tick (MOTOR_RUNNING : Z) (fuel : nat) (d : devices) (w : world) :
  quiet_rotation ROTATE_LEFT (d, w) ->
  exists w',
    run d (rotation_tick MOTOR_RUNNING fuel ROTATE_STOP) w = Returned ROTATE_LEFT w' /\
    duties (issued w w') = [(rotation_motor, -30)] /\
    motor_commands (issued w w') = [].
Proof.
  intros Hq; eexists; split; [apply rotation_quiet_tick; exact Hq|].
  rewrite issued_rev, rotation_quiet_duties.
  unfold rotation_quiet_log; rewrite !motor_commands_app.
  destruct Hq as (_ & _ & _ & Hl); cbn in Hl; rewrite Hl; cbn; split; reflexivity.
Qed.

(** ** What a soft-limit recovery leaves alone *)

Lemma wait_log_no_write (d : devices) (m : motor) (n k : nat) :
  Forall (fun e => writes_limit_or_intent (ev_call e) = false) (wait_log d m n k).
Proof.
  apply (wait_log_calls (fun c => writes_limit_or_intent c = false)); reflexivity.
Qed.

Lemma clears_only_seen_wait (MOTOR_RUNNING : Z) (m : motor) (fuel : nat) (f : flag)
    (seen : bool) :
  forall A (k : unit -> prog A),
    clears_only_seen f seen (k tt) ->
    clears_only_seen f seen (bind (wait_while_running MOTOR_RUNNING fuel m) k).
Proof.
  intros A k Hk; induction fuel as [|n IH]; cbn; [exact I|].
  split; [discriminate | intros st]; rewrite Bool.orb_false_r.
  destruct (Z.land st MOTOR_RUNNING =? 0); cbn; [exact Hk|].
  split; [discriminate | intros []]; rewrite Bool.orb_false_r; exact IH.
Qed.

Ltac only_seen :=
  repeat (cbn;
    match goal with
    | |- _ /\ _ => split
    | |- forall _, _ => intro
    | |- True => exact I
    | |- _ = _ => first [reflexivity | discriminate]
    | H : false = true |- _ => discriminate H
    | |- clears_only_seen _ _ (bind (wait_while_running _ _ _) _) =>
        apply clears_only_seen_wait
    | |- clears_only_seen _ _ (bind (if ?b then _ else _) _) => destruct b
    | |- clears_only_seen _ _ (bind (match ?x with _ => _ end) _) => destruct x
    | |- clears_only_seen _ _ (if ?b then _ else _) => destruct b
    | |- clears_only_seen _ _ (match ?x with _ => _ end) => destruct x
    end).

Lemma rotation_clears_only_seen (MOTOR_RUNNING : Z) (fuel : nat)
    (rotation_actual : actions_rotation) :
  clears_only_seen clockwise_limit_reached false
    (rotation_tick MOTOR_RUNNING fuel rotation_actual).
Proof. unfold rotation_tick; only_seen. Qed.

Lemma elevation_clears_only_seen (MOTOR_RUNNING : Z) (fuel : nat)
    (elevation_actual : actions_elevation) :
  clears_only_seen top_limit_reached false
    (elevation_tick MOTOR_RUNNING fuel elevation_actual).
Proof. unfold elevation_tick; only_seen. Qed.

Lemma rotation_quiet_no_write (d : devices) (w : world) (actual : actions_rotation) :
  Forall (fun e => writes_limit_or_intent (ev_call e) = false)
    (rotation_quiet_log d w actual).
Proof.
  unfold rotation_quiet_log.
  destruct (actions_rotation_eqb actual (rotation (mem w))); repeat constructor.
Qed.

Lemma elevation_quiet_no_write (d : devices) (w : world) (actual : actions_elevation) :
  Forall (fun e => writes_limit_or_intent (ev_call e) = false)
    (elevation_quiet_log d w actual).
Proof.
  unfold elevation_quiet_log.
  destruct (actions_elevation_eqb actual (elevation (mem w))); repeat constructor.
Qed.

(** C10. A period of the rotation (resp. elevation) controller that takes
    the soft-limit branch (flag of its sensor clear, position below -400,
    resp. above 200) returns with both limit flags and the three fields of
    the intent as they were, and none of its calls writes any of them.
    Nor does a period that takes the direct-drive branch (no limit): it
    leaves every global as it was.  And on every path of a period,
    whatever the hardware and the globals are, the only write into a limit
    flag or the intent is the clearing of the flag of its own axis, made
    only where that flag has been read as true: only the branch of the
    sensor limit clears it. *)
Theorem soft_limit_recovery_frame (MOTOR_RUNNING : Z) (d : devices) (fuel k : nat)
    (w : world) :
  unlocked w ->
  (k < fuel)%nat ->
  (forall rotation_actual,
     g_clockwise_limit_reached (mem w) = false ->
     position d rotation_motor < -400 ->
     stops_after MOTOR_RUNNING d rotation_motor (log w) k ->
     exists w',
       run d (rotation_tick MOTOR_RUNNING fuel rotation_actual) w
         = Returned ROTATE_STOP w' /\
       same_limits_and_intent (mem w) (mem w') /\
       Forall (fun e => writes_limit_or_intent (ev_call e) = false) (issued w w')) /\
  (forall elevation_actual,
     g_top_limit_reached (mem w) = false ->
     200 < position d elevation_motor ->
     stops_after MOTOR_RUNNING d elevation_motor (log w) k ->
     exists w',
       run d (elevation_tick MOTOR_RUNNING fuel elevation_actual) w
         = Returned ELEVATE_STOP w' /\
       same_limits_and_intent (mem w) (mem w') /\
       Forall (fun e => writes_limit_or_intent (ev_call e) = false) (issued w w')) /\
  (forall rotation_actual rotation_next,
     quiet_rotation rotation_next (d, w) ->
     exists w',
       run d (rotation_tick MOTOR_RUNNING fuel rotation_actual) w
         = Returned rotation_next w' /\
       mem w' = mem w /\
       Forall (fun e => writes_limit_or_intent (ev_call e) = false) (issued w w')) /\
  (forall elevation_actual elevation_next,
     quiet_elevation elevation_next (d, w) ->
     exists w',
       run d (elevation_tick MOTOR_RUNNING fuel elevation_actual) w
         = Returned elevation_next w' /\
       mem w' = mem w /\
       Forall (fun e => writes_limit_or_intent (ev_call e) = false) (issued w w')) /\
  (forall rotation_actual,
     clears_only_seen clockwise_limit_reached false
       (rotation_tick MOTOR_RUNNING fuel rotation_actual)) /\
  (forall elevation_actual,
     clears_only_seen top_limit_reached false
       (elevation_tick MOTOR_RUNNING fuel elevation_actual)).
Proof.
  intros Hfree Hfuel; split; [| split; [| split; [| split; [| split]]]].
  - intros actual Hflag Hpos Hstop; eexists; split;
      [apply rotation_soft_recovery; eassumption|].
    split; [repeat split|].
    rewrite issued_rev; unfold rotation_absolute_log.
    repeat (apply Forall_app; split); try apply wait_log_no_write;
      repeat constructor.
  - intros actual Hflag Hpos Hstop; eexists; split;
      [apply elevation_soft_recovery; eassumption|].
    split; [repeat split|].
    rewrite issued_rev; unfold elevation_absolute_log.
    repeat (apply Forall_app; split); try apply wait_log_no_write;
      repeat constructor.
  - intros actual next Hq; eexists; split;
      [apply rotation_quiet_tick; exact Hq|].
    split; [reflexivity|].
    rewrite issued_rev; apply rotation_quiet_no_write.
  - intros actual next Hq; eexists; split;
      [apply elevation_quiet_tick; exact Hq|].
    split; [reflexivity|].
    rewrite issued_rev; apply elevation_quiet_no_write.
  - intros actual; apply rotation_clears_only_seen.
  - intros actual; apply elevation_clears_only_seen.
Qed.

(** ** The close flag *)

Lemma answer_close (d : devices) (l : list event) (g g' : globals) (c : call)
    (r : result c) :
  close_only_set c -> g_close g = true ->
  answer d l g c = Some (r, g') -> g_close g' = true.
Proof.
  intros Hc Hg; destruct c; cbn in *; intros E;
    try (inversion E; subst; assumption).
  - destruct (held m l); [discriminate | inversion E; subst; assumption].
  - destruct f; cbn in *; inversion E; subst; cbn; first [assumption | reflexivity].
Qed.

Lemma exec_close (d : devices) (c : call) (r : result c) (w w' : world) :
  close_only_set c -> g_close (mem w) = true ->
  exec d c w = Some (r, w') -> g_close (mem w') = true.
Proof.
  intros Hc Hg; unfold exec.
  destruct (answer d (log w) (mem w) c) as [[r0 g]|] eqn:E; [|discriminate].
  intros H; inversion H; subst; cbn.
  eapply answer_close; [exact Hc | exact Hg | exact E].
Qed.

Lemma Forall_replace {A : Type} (P : A -> Prop) (x : A) (l : list A) :
  Forall P l -> P x -> forall i, Forall P (replace i x l).
Proof.
  induction 1 as [|h t Hh Ht IH]; intros Hx i; cbn; [constructor|].
  destruct i; constructor; auto.
Qed.

Lemma Forall_nth_error {A : Type} (P : A -> Prop) (l : list A) :
  Forall P l -> forall i x, nth_error l i = Some x -> P x.
Proof.
  induction 1 as [|h t Hh _ IH]; intros [|i] x E; cbn in E; try discriminate.
  - inversion E; subst; exact Hh.
  - exact (IH i x E).
Qed.

Lemma schedule_close (sch : list (devices * nat)) :
  forall (ts ts' : list (prog unit)) (w w' : world),
    Forall (all_calls close_only_set) ts ->
    g_close (mem w) = true ->
    schedule sch ts w = Some (ts', w') ->
    g_close (mem w') = true.
Proof.
  induction sch as [|[d i] sch IH]; intros ts ts' w w' Hts Hw; cbn.
  - intros E; inversion E; subst; exact Hw.
  - unfold step. destruct (nth_error ts i) as [[a|c k|code|]|] eqn:En; try discriminate.
    destruct (exec d c w) as [[r w1]|] eqn:Ee; [|discriminate].
    destruct (Forall_nth_error _ _ Hts i _ En) as [Hc Hk].
    apply IH.
    + apply Forall_replace; [exact Hts | apply Hk].
    + exact (exec_close d c r w w1 Hc Hw Ee).
Qed.

Lemma periodic_stops {S : Type} (d : devices) (period : Z) (body : S -> prog S)
    (iters : nat) (next_time : Z) (s : S) (w : world) :
  g_close (mem w) = true ->
  held close_mutex (log w) = false ->
  run d (periodic (Datatypes.S iters) period body next_time s) w =
  Returned tt (World (mem w) (rev (locked close_mutex (load close) true) ++ log w)).
Proof.
  intros Hc Hm; cbn; unfold exec; cbn; rewrite Hm; cbn; rewrite Hc; reflexivity.
Qed.

Ltac finish_calls := calls; try reflexivity; try exact I; try discriminate.

Lemma controller_close_only_set (MOTOR_RUNNING EV3_X_LCD EV3_Y_LCD : Z)
    (iters fuel : nat) (a : activity) :
  all_calls close_only_set (controller MOTOR_RUNNING EV3_X_LCD EV3_Y_LCD iters fuel a).
Proof.
  destruct a; cbn; (split; [exact I | intros next_time]);
    apply all_calls_periodic; try exact I; try (intros; exact I); intros s;
    finish_calls.
Qed.

Lemma controller_resume (MOTOR_RUNNING EV3_X_LCD EV3_Y_LCD : Z) (iters fuel : nat)
    (a : activity) :
  controller MOTOR_RUNNING EV3_X_LCD EV3_Y_LCD iters fuel a =
  (next_time <- !clock_gettime ;;
   resume MOTOR_RUNNING EV3_X_LCD EV3_Y_LCD iters fuel a next_time (initial_local a))%prog.
Proof. destruct a; reflexivity. Qed.

(** C5. No call of any controller writes false into [close]; so, however
    the eight controllers are interleaved and whatever the hardware does,
    [close] stays true once it is true.  An activity that reaches the head
    of its loop with [close] true reads the flag under its mutex and
    returns: it makes no other call. *)
Theorem close_latches_and_stops (MOTOR_RUNNING EV3_X_LCD EV3_Y_LCD : Z) (fuel : nat) :
  (forall iters a,
     all_calls close_only_set
       (controller MOTOR_RUNNING EV3_X_LCD EV3_Y_LCD iters fuel a)) /\
  (forall sch iters w ts' w',
     g_close (mem w) = true ->
     schedule sch (controllers MOTOR_RUNNING EV3_X_LCD EV3_Y_LCD iters fuel) w
       = Some (ts', w') ->
     g_close (mem w') = true) /\
  (forall d iters a next_time s w,
     g_close (mem w) = true ->
     held close_mutex (log w) = false ->
     run d (resume MOTOR_RUNNING EV3_X_LCD EV3_Y_LCD (S iters) fuel a next_time s) w =
     Returned tt
       (World (mem w) (rev (locked close_mutex (load close) true) ++ log w))).
Proof.
  split; [| split].
  - intros; apply controller_close_only_set.
  - intros sch iters w ts' w' Hw Hs.
    eapply schedule_close; [| exact Hw | exact Hs].
    unfold controllers; apply Forall_map, Forall_forall; intros a _.
    apply controller_close_only_set.
  - intros; apply periodic_stops; assumption.
Qed.

(** ** Duty cycles under every interleaving *)

Lemma schedule_calls (P : call -> Prop) (sch : list (devices * nat)) :
  forall (ts ts' : list (prog unit)) (w w' : world),
    Forall (all_calls P) ts ->
    schedule sch ts w = Some (ts', w') ->
    exists new,
      log w' = new ++ log w /\ Forall (fun e => P (ev_call e)) new.
Proof.
  induction sch as [|[d i] sch IH]; intros ts ts' w w' Hts; cbn.
  - intros E; inversion E; subst; exists []; split; [reflexivity | constructor].
  - unfold step. destruct (nth_error ts i) as [[a|c k|code|]|] eqn:En; try discriminate.
    destruct (exec d c w) as [[r w1]|] eqn:Ee; [|discriminate].
    destruct (Forall_nth_error _ _ Hts i _ En) as [Hc Hk].
    intros Hs.
    destruct (IH _ _ _ _ (Forall_replace _ _ _ Hts (Hk r) i) Hs) as (new & Hlog & Hall).
    exists (new ++ [Ev c r]); split.
    + rewrite Hlog, (exec_log d c r w w1 Ee), <- app_assoc; reflexivity.
    + apply Forall_app; split; [exact Hall | repeat constructor; exact Hc].
Qed.

Lemma controller_duty (MOTOR_RUNNING EV3_X_LCD EV3_Y_LCD : Z) (iters fuel : nat)
    (a : activity) :
  all_calls (duty_calls axis_duty_ok)
    (controller MOTOR_RUNNING EV3_X_LCD EV3_Y_LCD iters fuel a).
Proof.
  destruct a; cbn; (split; [exact I | intros next_time]);
    apply all_calls_periodic; try exact I; try (intros; exact I); intros s;
    finish_calls; unfold axis_duty_ok; cbn; auto.
Qed.

(** X17. However the eight controllers are interleaved and whatever the
    hardware does, every duty cycle set on a motor is one its axis
    allows. *)
Lemma duty_cycle_in_range_all_schedules (MOTOR_RUNNING EV3_X_LCD EV3_Y_LCD : Z)
    (iters fuel : nat) (sch : list (devices * nat)) (w w' : world)
    (ts' : list (prog unit)) :
  schedule sch (controllers MOTOR_RUNNING EV3_X_LCD EV3_Y_LCD iters fuel) w
    = Some (ts', w') ->
  Forall axis_duty_ok (duties (issued w w')).
Proof.
  intros Hs.
  destruct (schedule_calls (duty_calls axis_duty_ok) sch _ _ _ _
              ltac:(unfold controllers; apply Forall_map, Forall_forall;
                    intros a _; apply controller_duty) Hs)
    as (new & Hlog & Hall).
  rewrite (issued_extends _ _ _ Hlog).
  apply duties_Forall, Forall_rev; exact Hall.
Qed.

(** ** Device calls that fail *)








(** A call made in two worlds alike, on the hardware as it is and on the
    hardware that never fails: both proceed or both block, the worlds stay
    alike, and what is handed back differs at most by a status. *)








Section Ticks.

Variables MOTOR_RUNNING EV3_X_LCD EV3_Y_LCD : Z.
Variable fuel : nat.





End Ticks.


(** ** The loop around the periods *)



(** The calls made from [w] to the end of a run, when they are known to
    be [new]. *)



(** A run that starts later, after calls [pre] that print nothing. *)









Section Threads.

Variables MOTOR_RUNNING EV3_X_LCD EV3_Y_LCD : Z.
Variable fuel : nat.






End Threads.


(** ** The LEDs before the first correction *)

Ltac loop_calls fuel :=
  let n := fresh "n" in
  let IH := fresh "IH" in
  induction fuel as [|n IH]; intros; cbn; [exact I|]; finish_calls; apply IH.

Lemma rotate_until_touch_no_led (fuel : nat) (period next_time : Z) :
  all_calls no_set_led (rotate_until_touch fuel period next_time).
Proof. revert next_time; loop_calls fuel. Qed.

Lemma rise_until_reflection_no_led (fuel : nat) (period next_time : Z) :
  all_calls no_set_led (rise_until_reflection fuel period next_time).
Proof. revert next_time; loop_calls fuel. Qed.

Lemma close_until_limit_no_led (fuel : nat) (period next_time : Z) :
  all_calls no_set_led (close_until_limit fuel period next_time).
Proof. revert next_time; loop_calls fuel. Qed.

Lemma sleep_while_running_no_led (MOTOR_RUNNING : Z) (fuel : nat) (m : motor)
    (period next_time : Z) :
  all_calls no_set_led (sleep_while_running MOTOR_RUNNING fuel m period next_time).
Proof. revert next_time; loop_calls fuel. Qed.

Lemma main_startup_no_led : all_calls no_set_led main_startup.
Proof. unfold main_startup, or_fail; finish_calls. Qed.

Lemma startup_no_led (MOTOR_RUNNING : Z) (fuel : nat) :
  all_calls no_set_led (startup MOTOR_RUNNING fuel).
Proof.
  unfold startup.
  apply all_calls_bind; [apply main_startup_no_led | intros _].
  apply all_calls_bind; [| intros _; apply all_calls_bind; [| intros _]].
  - unfold rotation_motor_initializer; cbn; repeat (split; [exact I | intros]).
    apply all_calls_bind; [apply rotate_until_touch_no_led | intros; cbn].
    repeat (split; [exact I | intros]).
    apply all_calls_bind; [apply sleep_while_running_no_led | intros; finish_calls].
  - unfold elevation_motor_initializer; cbn; repeat (split; [exact I | intros]).
    apply all_calls_bind; [apply rise_until_reflection_no_led | intros; cbn].
    repeat (split; [exact I | intros]).
    apply all_calls_bind; [apply sleep_while_running_no_led | intros; finish_calls].
  - unfold claw_motor_initializer; cbn; repeat (split; [exact I | intros]).
    apply all_calls_bind; [apply close_until_limit_no_led | intros; cbn].
    repeat (split; [exact I | intros]).
    apply all_calls_bind; [apply sleep_while_running_no_led | intros; finish_calls].
Qed.

(** C9, amended. Nothing that runs before the controllers (the start of
    main and the three initializers) writes an LED: the LED device is only
    initialised.  The LED reporter, entered with previous = false, writes
    no LED in a period in which it reads CorrectionInProgress false and
    stays at previous = false; in the first period in which it reads true
    it turns both LEDs red.  With previous = true it turns them green when
    it reads false and writes nothing when it reads true.  So until the
    first correction the LEDs keep the state the brick gave them, and the
    program writes green only when a correction ends. *)
Theorem leds_untouched_until_correction (MOTOR_RUNNING : Z) (fuel : nat) :
  all_calls no_set_led (startup MOTOR_RUNNING fuel) /\
  (forall d w,
     held correction_mutex (log w) = false ->
     g_correction_in_progress (mem w) = false ->
     run d (leds_tick false) w =
     Returned false
       (World (mem w)
          (rev (locked correction_mutex (load correction_in_progress) false)
           ++ log w))) /\
  (forall d w,
     held correction_mutex (log w) = false ->
     g_correction_in_progress (mem w) = true ->
     run d (leds_tick false) w =
     Returned true
       (World (mem w)
          (rev (locked correction_mutex (load correction_in_progress) true ++
                [set_led d LEFT_LED RED_LED 255; set_led d RIGHT_LED RED_LED 255;
                 set_led d LEFT_LED GREEN_LED 0; set_led d RIGHT_LED GREEN_LED 0])
           ++ log w))) /\
  (forall d w,
     held correction_mutex (log w) = false ->
     g_correction_in_progress (mem w) = false ->
     run d (leds_tick true) w =
     Returned false
       (World (mem w)
          (rev (locked correction_mutex (load correction_in_progress) false ++
                [set_led d LEFT_LED GREEN_LED 255; set_led d RIGHT_LED GREEN_LED 255;
                 set_led d LEFT_LED RED_LED 0; set_led d RIGHT_LED RED_LED 0])
           ++ log w))) /\
  (forall d w,
     held correction_mutex (log w) = false ->
     g_correction_in_progress (mem w) = true ->
     run d (leds_tick true) w =
     Returned true
       (World (mem w)
          (rev (locked correction_mutex (load correction_in_progress) true)
           ++ log w))).
Proof.
  split; [apply startup_no_led|].
  repeat split; intros d w Hm Hc; unfold leds_tick; cbn; unfold exec; cbn;
    rewrite Hm; cbn; rewrite Hc; reflexivity.
Qed.

(** ** Two recoveries at once *)

(** C3, the failing run. From the start world, with both sensors at their
    limit, the eight controllers can be interleaved so that the rotation
    controller ends its recovery while the elevation controller is still
    waiting for its motor: the elevation motor has been sent on its
    relative move and its power has not been cut, yet
    [correction_in_progress] is false, and the last thing the LED reporter
    wrote is green. *)
Theorem correction_flag_cleared_during_recovery :
  exists ts' w',
    schedule overlapping_recoveries
      (controllers RUNNING_BIT LCD_WIDTH LCD_HEIGHT 2 2) start = Some (ts', w') /\
    in_recovery elevation_motor (log w') = true /\
    in_recovery rotation_motor (log w') = false /\
    g_correction_in_progress (mem w') = false /\
    firstn 4 (led_writes (log w')) =
      [(RIGHT_LED, RED_LED, 0); (LEFT_LED, RED_LED, 0);
       (RIGHT_LED, GREEN_LED, 255); (LEFT_LED, GREEN_LED, 255)].
Proof.
  do 2 eexists; split; [vm_compute; reflexivity | repeat split].
Qed.

(** ** Concrete runs *)

(** A period of the rotation controller that does set a duty cycle. *)
Example left_sets_minus_30 :
  duties (issued left_published
            (world_of (run left_held (rotation_tick RUNNING_BIT 2 ROTATE_STOP)
                         left_published)))
  = [(rotation_motor, -30)].
Proof. reflexivity. Qed.

(** C8 as stated fails: with LEFT held after calibration, the first period
    of the rotation controller sends no run-direct. *)
Lemma first_left_tick_no_run_direct :
  ~ sets_duty_and_runs_direct
      (issued left_published
         (world_of (run left_held (rotation_tick RUNNING_BIT 2 ROTATE_STOP)
                      left_published))).
Proof. intros [_ H]; vm_compute in H; exact H. Qed.


(** C9 as stated fails: the start of main and the three initializers run
    to their end and set no LED green. *)
Lemma startup_sets_no_led :
  exists w',
    run calibrating_brick (startup RUNNING_BIT 3) start = Returned tt w' /\
    ~ leds_set_green (issued start w').
Proof.
  eexists; split; [vm_compute; reflexivity | intros [H _]; vm_compute in H; exact H].
Qed.

(** ** The theorems at concrete inputs *)

Lemma two_polls_overshoot (m : motor) : stops_after RUNNING_BIT overshoot_brick m [] 2.
Proof.
  split; [intros [|[|j]] Hj; [discriminate | discriminate | lia] | reflexivity].
Defined.

Lemma left_published_quiet (d : devices) :
  -400 <= position d rotation_motor -> quiet_rotation ROTATE_LEFT (d, left_published).
Proof.
  intros H; split; [intros m; destruct m; reflexivity|].
  split; [reflexivity | split; [exact H | reflexivity]].
Defined.

Lemma sensor_limit_recovery_witness :
  unlocked both_limits /\ (2 < 5)%nat /\
  g_clockwise_limit_reached (mem both_limits) = true /\
  position overshoot_brick rotation_motor < TOP_LEFT_POS /\
  stops_after RUNNING_BIT overshoot_brick rotation_motor (log both_limits) 2 /\
  run overshoot_brick (rotation_tick RUNNING_BIT 5 ROTATE_RIGHT) both_limits =
  Returned ROTATE_STOP
    (World (after_recovery clockwise_limit_reached (mem both_limits))
       (rev (rotation_relative_log overshoot_brick both_limits 2)
        ++ log both_limits)).
Proof.
  assert (Hu : unlocked both_limits) by (intros m; reflexivity).
  assert (Hf : (2 < 5)%nat) by lia.
  refine (conj Hu (conj Hf (conj eq_refl (conj eq_refl
            (conj (two_polls_overshoot rotation_motor) _))))).
  exact (proj1 (sensor_limit_recovery RUNNING_BIT overshoot_brick 5 2 both_limits Hu Hf)
           ROTATE_RIGHT eq_refl (two_polls_overshoot rotation_motor)).
Defined.


Lemma close_latches_and_stops_witness :
  g_close (mem closing) = true /\
  held close_mutex (log closing) = false /\
  run idle_brick
    (resume RUNNING_BIT LCD_WIDTH LCD_HEIGHT 1 2 Rotation 0 ROTATE_LEFT) closing =
  Returned tt
    (World (mem closing) (rev (locked close_mutex (load close) true) ++ log closing)).
Proof.
  refine (conj eq_refl (conj eq_refl _)).
  exact (proj2 (proj2 (close_latches_and_stops RUNNING_BIT LCD_WIDTH LCD_HEIGHT 2))
           idle_brick O Rotation 0 ROTATE_LEFT closing eq_refl eq_refl).
Defined.

Lemma buttons_publish_intent_witness :
  unlocked start /\
  run left_held (buttons_tick tt) start =
  Returned tt
    (World (set_rotation ROTATE_LEFT initial_globals)
       (rev
          [Ev (pthread_mutex_lock new_motors_status_mutex) tt;
           Ev (ev3_button_pressed BUTTON_LEFT) true;
           Ev (ev3_button_pressed BUTTON_RIGHT) false;
           Ev (store_rotation ROTATE_LEFT) tt;
           Ev (ev3_button_pressed BUTTON_UP) false;
           Ev (ev3_button_pressed BUTTON_DOWN) false;
           Ev (store_elevation ELEVATE_STOP) tt;
           Ev (ev3_button_pressed BUTTON_CENTER) false;
           Ev (store_claw INACTIVE) tt;
           Ev (pthread_mutex_unlock new_motors_status_mutex) tt;
           Ev (pthread_mutex_lock close_mutex) tt;
           Ev (ev3_button_pressed BUTTON_BACK) false;
           Ev (pthread_mutex_unlock close_mutex) tt])).
Proof.
  assert (Hu : unlocked start) by (intros m; reflexivity).
  split; [exact Hu | exact (buttons_publish_intent left_held start Hu)].
Defined.

Lemma same_intent_one_command_witness :
  quiet_rotation ROTATE_LEFT (left_held, left_published) /\
  Forall (quiet_rotation ROTATE_LEFT)
    [(left_held_later, left_published); (left_held_later, left_published)] /\
  exists first rest,
    run_ticks (rotation_tick RUNNING_BIT 2) ROTATE_STOP
      [(left_held, left_published); (left_held_later, left_published);
       (left_held_later, left_published)]
      = Some (ROTATE_LEFT, first :: rest) /\
    List.length rest = 2%nat /\
    duties first = [(rotation_motor, -30)] /\
    Forall (fun calls => duties calls = []) rest.
Proof.
  assert (H0 : quiet_rotation ROTATE_LEFT (left_held, left_published))
    by (apply left_published_quiet; discriminate).
  assert (H1 : quiet_rotation ROTATE_LEFT (left_held_later, left_published))
    by (apply left_published_quiet; discriminate).
  assert (Hs : Forall (quiet_rotation ROTATE_LEFT)
                 [(left_held_later, left_published); (left_held_later, left_published)])
    by (apply Forall_cons; [exact H1 | apply Forall_cons; [exact H1 | apply Forall_nil]]).
  split; [exact H0 | split; [exact Hs|]].
  exact (proj1 (same_intent_one_command RUNNING_BIT 2)
           ROTATE_LEFT ROTATE_STOP _ _ H0 Hs).
Defined.

Lemma first_left_tick_witness :
  quiet_rotation ROTATE_LEFT (left_held, left_published) /\
  exists w',
    run left_held (rotation_tick RUNNING_BIT 2 ROTATE_STOP) left_published
      = Returned ROTATE_LEFT w' /\
    duties (issued left_published w') = [(rotation_motor, -30)] /\
    motor_commands (issued left_published w') = [].
Proof.
  assert (H0 : quiet_rotation ROTATE_LEFT (left_held, left_published))
    by (apply left_published_quiet; discriminate).
  split; [exact H0 | exact (first_left_tick RUNNING_BIT 2 left_held left_published H0)].
Defined.

Lemma leds_untouched_until_correction_witness :
  held correction_mutex (log start) = false /\
  g_correction_in_progress (mem start) = false /\
  run idle_brick (leds_tick false) start =
  Returned false
    (World (mem start)
       (rev (locked correction_mutex (load correction_in_progress) false)
        ++ log start)).
Proof.
  refine (conj eq_refl (conj eq_refl _)).
  exact (proj1 (proj2 (leds_untouched_until_correction RUNNING_BIT 3))
           idle_brick start eq_refl eq_refl).
Defined.

Lemma soft_limit_recovery_frame_witness :
  unlocked start /\ (2 < 5)%nat /\
  g_clockwise_limit_reached (mem start) = false /\
  position overshoot_brick rotation_motor < -400 /\
  stops_after RUNNING_BIT overshoot_brick rotation_motor (log start) 2 /\
  exists w',
    run overshoot_brick (rotation_tick RUNNING_BIT 5 ROTATE_LEFT) start
      = Returned ROTATE_STOP w' /\
    same_limits_and_intent (mem start) (mem w') /\
    Forall (fun e => writes_limit_or_intent (ev_call e) = false) (issued start w').
Proof.
  assert (Hu : unlocked start) by (intros m; reflexivity).
  assert (Hf : (2 < 5)%nat) by lia.
  assert (Hp : position overshoot_brick rotation_motor < -400) by reflexivity.
  refine (conj Hu (conj Hf (conj eq_refl
            (conj Hp (conj (two_polls_overshoot rotation_motor) _))))).
  exact (proj1 (soft_limit_recovery_frame RUNNING_BIT overshoot_brick 5 2 start Hu Hf)
           ROTATE_LEFT eq_refl Hp (two_polls_overshoot rotation_motor)).
Defined.

(** * Further properties of main.c *)

(** ** Lock discipline and freedom from deadlock *)

Lemma disciplined_bind {A B : Type} (p : prog A) (f : A -> prog B) :
  forall h,
    disciplined h p -> (forall a, disciplined None (f a)) -> disciplined h (bind p f).
Proof.
  induction p as [a|c k IH|code|]; cbn; intros h Hp Hf; auto.
  - subst h; apply Hf.
  - destruct Hp as [Hc Hk]; split; [exact Hc | intros r; apply IH; auto].
Qed.

Lemma disciplined_wait (MOTOR_RUNNING : Z) (m : motor) (fuel : nat) :
  disciplined None (wait_while_running MOTOR_RUNNING fuel m).
Proof.
  induction fuel as [|n IH]; cbn; [reflexivity|].
  split; [reflexivity | intros st].
  destruct (Z.land st MOTOR_RUNNING =? 0); cbn; [reflexivity|].
  split; [reflexivity | intros _; exact IH].
Qed.

Ltac disc :=
  repeat (cbn;
    match goal with
    | |- _ /\ _ => split
    | |- forall _, _ => intro
    | |- True => exact I
    | |- _ = _ => reflexivity
    | |- disciplined _ (bind (if ?b then _ else _) _) => destruct b
    | |- disciplined _ (bind (match ?x with _ => _ end) _) => destruct x
    | |- disciplined _ (bind _ _) => apply disciplined_bind
    | |- disciplined _ (wait_while_running _ _ _) => apply disciplined_wait
    | |- disciplined _ (if ?b then _ else _) => destruct b
    | |- disciplined _ (match ?x with _ => _ end) => destruct x
    end).

Lemma disciplined_periodic {S : Type} (period : Z) (body : S -> prog S) (iters : nat) :
  (forall s, disciplined None (body s)) ->
  forall next_time s, disciplined None (periodic iters period body next_time s).
Proof.
  intros Hb; induction iters as [|n IH]; intros t s; cbn; [reflexivity|].
  split; [reflexivity | intros _]. split; [reflexivity | intros stop].
  split; [reflexivity | intros _]. destruct stop; cbn; [reflexivity|].
  apply disciplined_bind; [apply Hb | intros s'].
  cbn. split; [reflexivity | intros r2].
  destruct (r2 =? 0); cbn; [apply IH | split; [reflexivity | intros _; reflexivity]].
Qed.

Lemma tick_disciplined (MOTOR_RUNNING EV3_X_LCD EV3_Y_LCD : Z) (fuel : nat)
    (a : activity) (s : local a) :
  disciplined None (tick MOTOR_RUNNING EV3_X_LCD EV3_Y_LCD fuel a s).
Proof. destruct a; cbn in *; disc. Qed.

Lemma controller_disciplined (MOTOR_RUNNING EV3_X_LCD EV3_Y_LCD : Z) (iters fuel : nat)
    (a : activity) :
  disciplined None (controller MOTOR_RUNNING EV3_X_LCD EV3_Y_LCD iters fuel a).
Proof.
  rewrite controller_resume; cbn; split; [reflexivity | intros next_time].
  apply disciplined_periodic; intros s; apply tick_disciplined.
Qed.

Ltac loop_disc fuel :=
  let n := fresh "n" in
  let IH := fresh "IH" in
  induction fuel as [|n IH]; intros; cbn; [reflexivity|]; disc; apply IH.

Lemma rotate_until_touch_disciplined (fuel : nat) (period next_time : Z) :
  disciplined None (rotate_until_touch fuel period next_time).
Proof. revert next_time; loop_disc fuel. Qed.

Lemma rise_until_reflection_disciplined (fuel : nat) (period next_time : Z) :
  disciplined None (rise_until_reflection fuel period next_time).
Proof. revert next_time; loop_disc fuel. Qed.

Lemma close_until_limit_disciplined (fuel : nat) (period next_time : Z) :
  disciplined None (close_until_limit fuel period next_time).
Proof. revert next_time; loop_disc fuel. Qed.

Lemma sleep_while_running_disciplined (MOTOR_RUNNING : Z) (fuel : nat) (m : motor)
    (period next_time : Z) :
  disciplined None (sleep_while_running MOTOR_RUNNING fuel m period next_time).
Proof. revert next_time; loop_disc fuel. Qed.

Lemma initializer_disciplined (MOTOR_RUNNING : Z) (fuel : nat) (m : motor) :
  disciplined None (initializer MOTOR_RUNNING fuel m).
Proof.
  destruct m; cbn [initializer].
  - unfold rotation_motor_initializer; cbn; repeat (split; [reflexivity | intros]).
    apply disciplined_bind; [apply rotate_until_touch_disciplined | intros; cbn].
    repeat (split; [reflexivity | intros]).
    apply disciplined_bind; [apply sleep_while_running_disciplined | intros; disc].
  - unfold elevation_motor_initializer; cbn; repeat (split; [reflexivity | intros]).
    apply disciplined_bind; [apply rise_until_reflection_disciplined | intros; cbn].
    repeat (split; [reflexivity | intros]).
    apply disciplined_bind; [apply sleep_while_running_disciplined | intros; disc].
  - unfold claw_motor_initializer; cbn; repeat (split; [reflexivity | intros]).
    apply disciplined_bind; [apply close_until_limit_disciplined | intros; cbn].
    repeat (split; [reflexivity | intros]).
    apply disciplined_bind; [apply sleep_while_running_disciplined | intros; disc].
Qed.

Lemma startup_disciplined (MOTOR_RUNNING : Z) (fuel : nat) :
  disciplined None (startup MOTOR_RUNNING fuel).
Proof.
  unfold startup.
  apply disciplined_bind; [unfold main_startup, or_fail; disc | intros _].
  apply disciplined_bind;
    [apply (initializer_disciplined MOTOR_RUNNING fuel rotation_motor) | intros _].
  apply disciplined_bind;
    [apply (initializer_disciplined MOTOR_RUNNING fuel elevation_motor) | intros _].
  apply (initializer_disciplined MOTOR_RUNNING fuel claw_motor).
Qed.

Lemma main_parking_disciplined (MOTOR_RUNNING : Z) (fuel : nat) :
  disciplined None (main_parking MOTOR_RUNNING fuel).
Proof. unfold main_parking, park; disc. Qed.

(** X1. Every thread main creates, the three initializers and the eight
    controllers, keeps to one lock discipline on every path: it takes a
    mutex only when it holds none, releases only the one it holds, reads
    and writes a global only under the mutex of that global, and makes
    every other call (sleeps, motor, sensor, LED and LCD calls) while it
    holds nothing; only the keys are read inside a critical section.  It
    holds no mutex when it ends.  So do the device setup at the start of
    main, run with the initializers, and the parking at its end.  The
    first values main gives the intent and [claw_used.status] are the
    exception: they are stored without the mutexes. *)
Theorem lock_discipline (MOTOR_RUNNING EV3_X_LCD EV3_Y_LCD : Z) (iters fuel : nat) :
  (forall a,
     disciplined None (controller MOTOR_RUNNING EV3_X_LCD EV3_Y_LCD iters fuel a)) /\
  (forall m, disciplined None (initializer MOTOR_RUNNING fuel m)) /\
  disciplined None (startup MOTOR_RUNNING fuel) /\
  disciplined None (main_parking MOTOR_RUNNING fuel) /\
  ~ disciplined None main_initial_values.
Proof.
  split; [intros a; apply controller_disciplined | split; [| split; [| split]]].
  - intros m; apply initializer_disciplined.
  - apply startup_disciplined.
  - apply main_parking_disciplined.
  - intros [H _]; discriminate H.
Qed.

Lemma mutex_eqb_eq (a b : mutex) : mutex_eqb a b = true <-> a = b.
Proof. destruct a, b; cbn; split; congruence. Qed.

Lemma exec_unless_lock (d : devices) (c : call) (w : world) :
  (forall m, c <> pthread_mutex_lock m) -> exists r w', exec d c w = Some (r, w').
Proof.
  intros Hc; unfold exec; destruct c; cbn; try (do 2 eexists; reflexivity).
  destruct (Hc m eq_refl).
Qed.

Lemma exec_lock_free (d : devices) (m : mutex) (w : world) :
  held m (log w) = false ->
  exists r w', exec d (pthread_mutex_lock m) w = Some (r, w').
Proof. intros H; unfold exec; cbn; rewrite H; do 2 eexists; reflexivity. Qed.

Lemma replace_same {A : Type} (l : list A) :
  forall i x, nth_error l i = Some x -> replace i x l = l.
Proof.
  induction l as [|h t IH]; intros [|i] x E; cbn in *; try discriminate.
  - inversion E; reflexivity.
  - rewrite (IH i x E); reflexivity.
Qed.

Lemma In_replace_self {A : Type} (l : list A) :
  forall i x y, nth_error l i = Some y -> In x (replace i x l).
Proof.
  induction l as [|h t IH]; intros [|i] x y E; cbn in *; try discriminate.
  - left; reflexivity.
  - right; exact (IH i x y E).
Qed.

Lemma In_replace_other {A : Type} (l : list A) :
  forall i x y z, nth_error l i = Some y -> x <> y -> In x l -> In x (replace i z l).
Proof.
  induction l as [|h t IH]; intros [|i] x y z E Hxy Hin; cbn in *; try discriminate.
  - inversion E; subst; destruct Hin as [Hin|Hin]; [congruence | right; exact Hin].
  - destruct Hin as [Hin|Hin]; [left; exact Hin | right; exact (IH i x y z E Hxy Hin)].
Qed.

Lemma Forall2_nth_right {A B : Type} (R : A -> B -> Prop) (l : list A) (l' : list B) :
  Forall2 R l l' ->
  forall i y, nth_error l' i = Some y -> exists x, nth_error l i = Some x /\ R x y.
Proof.
  induction 1 as [|x y0 l l' Hxy _ IH]; intros [|i] y E; cbn in *; try discriminate.
  - inversion E; subst; exists x; split; [reflexivity | exact Hxy].
  - exact (IH i y E).
Qed.

Lemma Forall2_nth_left {A B : Type} (R : A -> B -> Prop) (l : list A) (l' : list B) :
  Forall2 R l l' ->
  forall i x, nth_error l i = Some x -> exists y, nth_error l' i = Some y /\ R x y.
Proof.
  induction 1 as [|x0 y l l' Hxy _ IH]; intros [|i] x E; cbn in *; try discriminate.
  - inversion E; subst; exists y; split; [reflexivity | exact Hxy].
  - exact (IH i x E).
Qed.

Lemma Forall2_replace {A B : Type} (R : A -> B -> Prop) (l : list A) (l' : list B) :
  Forall2 R l l' ->
  forall i x y, R x y -> Forall2 R (replace i x l) (replace i y l').
Proof.
  induction 1 as [|x0 y0 l l' Hxy Hl IH]; intros i x y Hr; cbn; [constructor|].
  destruct i; constructor; auto.
Qed.

Lemma step_consistent (d : devices) (i : nat) (ts ts' : list (prog unit))
    (w w' : world) (hs : list (option mutex)) :
  consistent hs ts (log w) ->
  step d i ts w = Some (ts', w') ->
  exists hs', consistent hs' ts' (log w').
Proof.
  intros [Hd Hh]; unfold step.
  destruct (nth_error ts i) as [[a|c k|code|]|] eqn:En; try discriminate.
  destruct (exec d c w) as [[r w1]|] eqn:Ee; [|discriminate].
  intros E; inversion E; subst ts' w'; clear E.
  destruct (Forall2_nth_right _ _ _ Hd i _ En) as (h & Eh & Hc & Hk).
  exists (replace i (after h c) hs); split.
  - apply Forall2_replace; [exact Hd | apply Hk].
  - rewrite (exec_log d c r w w1 Ee); intros m.
    destruct c; cbn in *;
      try (subst h; rewrite (replace_same hs i _ Eh); apply Hh).
    + destruct (mutex_eqb m0 m) eqn:Em.
      * apply mutex_eqb_eq in Em; subst m0; intros _.
        exact (In_replace_self hs i _ _ Eh).
      * intros Hm; apply (In_replace_other hs i _ h); [exact Eh | | exact (Hh m Hm)].
        subst h; discriminate.
    + destruct (mutex_eqb m0 m) eqn:Em; [discriminate|].
      intros Hm; apply (In_replace_other hs i _ h); [exact Eh | | exact (Hh m Hm)].
      subst h; intros E; inversion E; subst m0.
      rewrite (proj2 (mutex_eqb_eq m m) eq_refl) in Em; discriminate.
    + rewrite (replace_same hs i _ Eh); apply Hh.
Qed.

Lemma schedule_consistent (sch : list (devices * nat)) :
  forall (ts ts' : list (prog unit)) (w w' : world) (hs : list (option mutex)),
    consistent hs ts (log w) ->
    schedule sch ts w = Some (ts', w') ->
    exists hs', consistent hs' ts' (log w').
Proof.
  induction sch as [|[d i] sch IH]; intros ts ts' w w' hs Hc; cbn.
  - intros E; inversion E; subst; exists hs; exact Hc.
  - destruct (step d i ts w) as [[ts1 w1]|] eqn:Es; [|discriminate].
    destruct (step_consistent d i ts ts1 w w1 hs Hc Es) as (hs1 & Hc1).
    apply (IH ts1 ts' w1 w' hs1 Hc1).
Qed.

Lemma consistent_progress (d : devices) (ts : list (prog unit)) (w : world)
    (hs : list (option mutex)) :
  consistent hs ts (log w) ->
  Exists unfinished ts ->
  exists j ts' w', step d j ts w = Some (ts', w').
Proof.
  intros [Hd Hh] Hex.
  apply Exists_exists in Hex; destruct Hex as (p & Hin & Hp).
  destruct (In_nth_error ts p Hin) as (i & En).
  destruct p as [a|c k|code|]; try contradiction.
  assert (Hgo : forall j c' (k' : result c' -> prog unit),
             nth_error ts j = Some (Call c' k') ->
             (exists r w', exec d c' w = Some (r, w')) ->
             exists j ts' w', step d j ts w = Some (ts', w')).
  { intros j c' k' Ej (r & w' & Ee); exists j; unfold step; rewrite Ej, Ee.
    do 2 eexists; reflexivity. }
  assert (Hlock : forall m, c = pthread_mutex_lock m ->
                    exists j ts' w', step d j ts w = Some (ts', w')).
  { intros m Ec; destruct (held m (log w)) eqn:Em.
    - destruct (In_nth_error hs _ (Hh m Em)) as (j & Ej).
      destruct (Forall2_nth_left _ _ _ Hd j _ Ej) as (q & Eq & Hq).
      destruct q as [a|c' k'|code|]; cbn in Hq; try discriminate.
      destruct Hq as [Hc' _]; apply (Hgo j c' k' Eq), exec_unless_lock.
      intros m' Ec'; subst c'; cbn in Hc'; discriminate.
    - subst c; apply (Hgo i _ k En), exec_lock_free; exact Em. }
  destruct c; try (apply (Hgo i _ k En), exec_unless_lock; intros; discriminate).
  apply (Hlock m eq_refl).
Qed.

(** X2. The controllers cannot deadlock: from a world in which no mutex is
    held, however they have been interleaved and whatever the hardware
    did, as long as one of them still has a call to make, one of them can
    make its next call. *)
Theorem no_deadlock (MOTOR_RUNNING EV3_X_LCD EV3_Y_LCD : Z) (iters fuel : nat)
    (sch : list (devices * nat)) (w w' : world) (ts' : list (prog unit))
    (d : devices) :
  unlocked w ->
  schedule sch (controllers MOTOR_RUNNING EV3_X_LCD EV3_Y_LCD iters fuel) w
    = Some (ts', w') ->
  Exists unfinished ts' ->
  exists j ts'' w'', step d j ts' w' = Some (ts'', w'').
Proof.
  intros Hw Hs Hex.
  assert (H0 : consistent (repeat None 8)
                 (controllers MOTOR_RUNNING EV3_X_LCD EV3_Y_LCD iters fuel) (log w)).
  { split.
    - unfold controllers; cbn [map repeat].
      repeat (apply Forall2_cons; [apply controller_disciplined|]); apply Forall2_nil.
    - intros m Hm; rewrite (Hw m) in Hm; discriminate. }
  destruct (schedule_consistent sch _ _ _ _ _ H0 Hs) as (hs' & Hc).
  exact (consistent_progress d ts' w' hs' Hc Hex).
Qed.

(** ** Devices and globals, activity by activity *)

Ltac owned := calls; try exact I; try reflexivity; auto.

(** X3. Each device is used by one activity only: the keys by the button
    sampler, each sensor by its sampler, each motor by its controller, the
    LEDs by the LED reporter, the display and the wall clock by the
    reporter.  No controller loads, searches, opens, resets or initialises
    a device or sets the mode of a sensor. *)
Theorem one_user_per_device (MOTOR_RUNNING EV3_X_LCD EV3_Y_LCD : Z) (iters fuel : nat)
    (a : activity) :
  all_calls (own_device a) (controller MOTOR_RUNNING EV3_X_LCD EV3_Y_LCD iters fuel a).
Proof.
  destruct a; cbn; (split; [exact I | intros next_time]);
    apply all_calls_periodic; try exact I; try (intros; exact I); intros s; owned.
Qed.

(** X4. Each global has the writers the design gives it: the intent and
    [close] (only ever true) are written by the button sampler, a limit
    flag is set by its sampler and cleared by the controller of its axis,
    [correction_in_progress] is written by the two axis controllers,
    [claw_used.status] by the claw controller, which is also the only
    other writer of the intent and only puts its claw field back to
    INACTIVE.  The LED reporter and the reporter write no global. *)
Theorem writers_of_globals (MOTOR_RUNNING EV3_X_LCD EV3_Y_LCD : Z) (iters fuel : nat)
    (a : activity) :
  all_calls (own_write a) (controller MOTOR_RUNNING EV3_X_LCD EV3_Y_LCD iters fuel a).
Proof.
  destruct a; cbn; (split; [exact I | intros next_time]);
    apply all_calls_periodic; try exact I; try (intros; exact I); intros s; owned.
Qed.

(** ** Periods without drift *)









(** A controller of three periods on the idle brick sleeps until 90, 180
    and 270 ms after its start. *)
Example rotation_wakeups :
  wakeups (issued start (world_of
     (run idle_brick (controller RUNNING_BIT LCD_WIDTH LCD_HEIGHT 3 1 Rotation) start)))
  = [90000000; 180000000; 270000000].
Proof. reflexivity. Qed.

(** ** The sensor samplers *)

Ltac frame :=
  repeat split; try reflexivity;
  let f := fresh "f" in
  let H := fresh "H" in
  intros f H; destruct f; try reflexivity; destruct (H eq_refl).

(** X6. One period of the color sampler sets [top_limit_reached] when the
    reflection read is at least 30 (and the mutex of the flag is free),
    never clears it, and changes no other global. *)
Theorem color_sampler_only_sets (d : devices) (w : world) :
  let w' := world_of (run d (color_sensor_tick tt) w) in
  g_top_limit_reached (mem w') =
    g_top_limit_reached (mem w)
    || ((30 <=? sensor_value d color_sensor) && negb (held top_mutex (log w))) /\
  untouched_but top_limit_reached (mem w) (mem w').
Proof.
  cbv zeta; unfold color_sensor_tick, REFLECTION_LIMIT; cbn; unfold exec; cbn.
  rewrite Z.geb_leb.
  destruct (30 <=? sensor_value d color_sensor); cbn; unfold exec; cbn;
    [destruct (held top_mutex (log w)); cbn|];
    (split; [destruct (g_top_limit_reached (mem w)); reflexivity | frame]).
Qed.

(** X7. One period of the touch sampler sets [clockwise_limit_reached]
    when the value read is exactly 1 (and the mutex of the flag is free),
    never clears it, and changes no other global. *)
Theorem touch_sampler_only_sets (d : devices) (w : world) :
  let w' := world_of (run d (touch_sensor_tick tt) w) in
  g_clockwise_limit_reached (mem w') =
    g_clockwise_limit_reached (mem w)
    || ((sensor_value d touch_sensor =? 1) && negb (held clockwise_mutex (log w))) /\
  untouched_but clockwise_limit_reached (mem w) (mem w').
Proof.
  cbv zeta; unfold touch_sensor_tick, TOUCH_SENSOR_ACTIVE; cbn; unfold exec; cbn.
  destruct (sensor_value d touch_sensor =? 1); cbn; unfold exec; cbn;
    [destruct (held clockwise_mutex (log w)); cbn|];
    (split; [destruct (g_clockwise_limit_reached (mem w)); reflexivity | frame]).
Qed.

(** ** The claw and the CENTER key *)

Lemma issued_new (w : world) (g : globals) (new : list event) :
  issued w (World g (new ++ log w)) = rev new.
Proof. apply issued_extends; reflexivity. Qed.

Lemma claw_closes (MOTOR_RUNNING : Z) (fuel : nat) (d : devices) (w : world) :
  unlocked w ->
  claw (mem w) = ACTIVE ->
  run d (claw_tick MOTOR_RUNNING fuel true) w =
  Returned false
    (World (after_toggle true (mem w)) (rev (claw_close_log d) ++ log w)).
Proof.
  intros Hfree Hc; unfold claw_tick.
  go Hfree. rewrite Hc. go Hfree.
  unfold after_toggle, claw_close_log; cbn; rewrite Hc; reflexivity.
Qed.

Lemma claw_opens (MOTOR_RUNNING : Z) (fuel k : nat) (d : devices) (w : world) :
  unlocked w ->
  (k < fuel)%nat ->
  claw (mem w) = ACTIVE ->
  stops_after MOTOR_RUNNING d claw_motor (log w) k ->
  run d (claw_tick MOTOR_RUNNING fuel false) w =
  Returned true
    (World (after_toggle false (mem w)) (rev (claw_open_log d w k) ++ log w)).
Proof.
  intros Hfree Hfuel Hc Hstop; unfold claw_tick.
  go Hfree. rewrite Hc. go Hfree.
  rewrite !run_bind, (run_wait _ _ _ k); [| exact Hfuel | exact Hstop].
  go Hfree.
  unfold after_toggle, claw_open_log, locked; cbn; rewrite Hc.
  repeat (progress (rewrite ?rev_app_distr, <- ?app_assoc; cbn)); reflexivity.
Qed.

Lemma claw_idles (MOTOR_RUNNING : Z) (fuel : nat) (d : devices) (w : world)
    (claw_open : bool) :
  held new_motors_status_mutex (log w) = false ->
  claw (mem w) = INACTIVE ->
  run d (claw_tick MOTOR_RUNNING fuel claw_open) w =
  Returned claw_open
    (World (mem w)
       (rev (locked new_motors_status_mutex load_claw INACTIVE) ++ log w)).
Proof.
  intros Hm Hc; unfold claw_tick; cbn; unfold exec; cbn.
  rewrite Hm; cbn; rewrite Hc; reflexivity.
Qed.

(** X8. One period of the claw controller.  With the intent INACTIVE it
    only reads the intent.  With the intent ACTIVE and the claw open it
    closes by time: duty cycle -40 in run-direct, a sleep of 500000
    microseconds, duty cycle 0, without reading the state of the motor.
    With the claw closed it opens by position: run-to-abs-pos 0, a wait
    until the motor no longer reports RUNNING, then duty cycle 0 in
    run-direct.  Either way it records the new state of the claw and puts
    the claw intent back to INACTIVE. *)
Theorem claw_period (MOTOR_RUNNING : Z) (fuel k : nat) (d : devices) (w : world) :
  unlocked w ->
  (k < fuel)%nat ->
  (forall claw_open,
     claw (mem w) = INACTIVE ->
     run d (claw_tick MOTOR_RUNNING fuel claw_open) w =
     Returned claw_open
       (World (mem w)
          (rev (locked new_motors_status_mutex load_claw INACTIVE) ++ log w))) /\
  (claw (mem w) = ACTIVE ->
   run d (claw_tick MOTOR_RUNNING fuel true) w =
   Returned false
     (World (after_toggle true (mem w)) (rev (claw_close_log d) ++ log w))) /\
  (claw (mem w) = ACTIVE ->
   stops_after MOTOR_RUNNING d claw_motor (log w) k ->
   run d (claw_tick MOTOR_RUNNING fuel false) w =
   Returned true
     (World (after_toggle false (mem w)) (rev (claw_open_log d w k) ++ log w))).
Proof.
  intros Hfree Hfuel; split; [| split].
  - intros claw_open Hc; apply claw_idles; [apply Hfree | exact Hc].
  - intros Hc; apply claw_closes; assumption.
  - intros Hc Hstop; apply claw_opens; assumption.
Qed.

(** Recovers the calls made since [base] from a log written as a chain of
    conses over [base]. *)

Ltac chain l base :=
  lazymatch l with
  | base => constr:(@nil event)
  | ?e :: ?r => let r' := chain r base in constr:(e :: r')
  end.

(** What a period of the button sampler means for the claw: it publishes
    the CENTER key, leaves [claw_used.status], the mutexes and the motors
    alone. *)




(** Runs a schedule call by call on hardware and globals that are known
    only through hypotheses. *)





(** ** Intent and recovery *)

Lemma wait_log_duties (d : devices) (m : motor) (k : nat) :
  forall n, duties (wait_log d m n k) = [].
Proof. induction k as [|k IH]; intros n; cbn; auto. Qed.

Lemma rotation_recovery_tick (MOTOR_RUNNING : Z) (fuel k : nat) (d : devices)
    (w : world) (actual : actions_rotation) :
  (k < fuel)%nat ->
  recovering_rotation MOTOR_RUNNING k (d, w) ->
  exists w',
    run d (rotation_tick MOTOR_RUNNING fuel actual) w = Returned ROTATE_STOP w' /\
    duties (issued w w') = [(rotation_motor, 0)].
Proof.
  intros Hfuel (Hfree & Hstop & [Hflag | [Hflag Hpos]]); cbn [fst snd] in *;
    eexists; (split;
      [ first [ apply (rotation_sensor_recovery MOTOR_RUNNING d fuel k w Hfree Hfuel
                         actual Hflag Hstop)
              | apply (rotation_soft_recovery MOTOR_RUNNING d fuel k w Hfree Hfuel
                         actual Hflag Hpos Hstop) ] |]);
    rewrite issued_rev;
    unfold rotation_relative_log, rotation_absolute_log;
    rewrite !duties_app, wait_log_duties; reflexivity.
Qed.

Lemma elevation_recovery_tick (MOTOR_RUNNING : Z) (fuel k : nat) (d : devices)
    (w : world) (actual : actions_elevation) :
  (k < fuel)%nat ->
  recovering_elevation MOTOR_RUNNING k (d, w) ->
  exists w',
    run d (elevation_tick MOTOR_RUNNING fuel actual) w = Returned ELEVATE_STOP w' /\
    duties (issued w w') = [(elevation_motor, 0)].
Proof.
  intros Hfuel (Hfree & Hstop & [Hflag | [Hflag Hpos]]); cbn [fst snd] in *;
    eexists; (split;
      [ first [ apply (elevation_sensor_recovery MOTOR_RUNNING d fuel k w Hfree Hfuel
                         actual Hflag Hstop)
              | apply (elevation_soft_recovery MOTOR_RUNNING d fuel k w Hfree Hfuel
                         actual Hflag Hpos Hstop) ] |]);
    rewrite issued_rev;
    unfold elevation_relative_log, elevation_absolute_log;
    rewrite !duties_app, wait_log_duties; reflexivity.
Qed.

(** X11. A recovery overrides the intent and the intent comes back after
    it.  In a period that recovers from a limit (sensor or position), the
    rotation (resp. elevation) controller sets no duty cycle but 0,
    whatever the intent and its current action.  In the next period
    without a limit it applies the intent again: it sets the duty cycle of
    the intent, unless the intent is STOP, in which case it sets none. *)
Theorem recovery_then_intent (MOTOR_RUNNING : Z) (fuel k : nat) :
  (k < fuel)%nat ->
  (forall actual next dw1 dw2,
     recovering_rotation MOTOR_RUNNING k dw1 ->
     quiet_rotation next dw2 ->
     exists l1 l2,
       run_ticks (rotation_tick MOTOR_RUNNING fuel) actual [dw1; dw2]
         = Some (next, [l1; l2]) /\
       duties l1 = [(rotation_motor, 0)] /\
       duties l2 =
         (if actions_rotation_eqb ROTATE_STOP next then []
          else [(rotation_motor, rotation_power next)])) /\
  (forall actual next dw1 dw2,
     recovering_elevation MOTOR_RUNNING k dw1 ->
     quiet_elevation next dw2 ->
     exists l1 l2,
       run_ticks (elevation_tick MOTOR_RUNNING fuel) actual [dw1; dw2]
         = Some (next, [l1; l2]) /\
       duties l1 = [(elevation_motor, 0)] /\
       duties l2 =
         (if actions_elevation_eqb ELEVATE_STOP next then []
          else [(elevation_motor, elevation_power next)])).
Proof.
  intros Hfuel; split; intros actual next [d1 w1] [d2 w2] Hrec Hq.
  - destruct (rotation_recovery_tick MOTOR_RUNNING fuel k d1 w1 actual Hfuel Hrec)
      as (w1' & Hrun & Hd).
    cbn [run_ticks]; rewrite Hrun.
    rewrite (rotation_quiet_tick MOTOR_RUNNING fuel d2 w2 ROTATE_STOP next Hq).
    do 2 eexists; split; [reflexivity | split; [exact Hd|]].
    rewrite issued_rev, rotation_quiet_duties.
    destruct Hq as (_ & _ & _ & Hn); cbn in Hn; rewrite Hn; reflexivity.
  - destruct (elevation_recovery_tick MOTOR_RUNNING fuel k d1 w1 actual Hfuel Hrec)
      as (w1' & Hrun & Hd).
    cbn [run_ticks]; rewrite Hrun.
    rewrite (elevation_quiet_tick MOTOR_RUNNING fuel d2 w2 ELEVATE_STOP next Hq).
    do 2 eexists; split; [reflexivity | split; [exact Hd|]].
    rewrite issued_rev, elevation_quiet_duties.
    destruct Hq as (_ & _ & _ & Hn); cbn in Hn; rewrite Hn; reflexivity.
Qed.

(** ** The start of main *)

Ltac since :=
  repeat match goal with
  | |- context [issued ?w (World ?g ?l)] =>
      let new := chain l (log w) in
      change (issued w (World g l)) with (issued w (World g (new ++ log w)));
      rewrite (issued_new w g new)
  end.

Ltac startup_run :=
  repeat (progress (cbn; try unfold exec; cbn;
    repeat match goal with E : non_null _ _ = _ |- _ => rewrite E end)).

Ltac startup_fails :=
  eexists; split; [startup_run; reflexivity |];
  split; [eexists; reflexivity |];
  split; [since; cbn; repeat constructor | reflexivity].

(** X12. The start of main goes through exactly when every pointer it
    tests is non-NULL; it then ends with the mode of the color sensor and
    the initialisation of keys, LEDs and display.  Otherwise it prints a
    message and leaves with EXIT_FAILURE, having initialised none of them
    and written no global.  A NULL from the search of the elevation or of
    the claw motor does not stop it. *)
Theorem main_startup_checks (d : devices) (w : world) :
  if startup_checks d then
    exists w',
      run d main_startup w = Returned tt w' /\
      map ev_call (firstn 4 (log w')) =
        [ev3_init_lcd; ev3_init_led; ev3_init_button;
         ev3_mode_sensor color_sensor COL_REFLECT] /\
      mem w' = mem w
  else
    exists w',
      run d main_startup w = Exited EXIT_FAILURE w' /\
      (exists message, hd_error (map ev_call (log w')) = Some (printf message)) /\
      Forall (fun e => is_init (ev_call e) = false) (issued w w') /\
      mem w' = mem w.
Proof.
  unfold startup_checks, main_startup, or_fail.
  destruct (non_null d ev3_load_motors) eqn:E1; cbn [andb]; [| startup_fails].
  destruct (non_null d (ev3_search_motor_by_port rotation_motor)) eqn:E2;
    cbn [andb]; [| startup_fails].
  destruct (non_null d (ev3_open_motor rotation_motor)) eqn:E3;
    cbn [andb]; [| startup_fails].
  destruct (non_null d (ev3_open_motor elevation_motor)) eqn:E4;
    cbn [andb]; [| startup_fails].
  destruct (non_null d (ev3_open_motor claw_motor)) eqn:E5;
    cbn [andb]; [| startup_fails].
  destruct (non_null d ev3_load_sensors) eqn:E6; cbn [andb]; [| startup_fails].
  destruct (non_null d (ev3_search_sensor_by_port touch_sensor)) eqn:E7;
    cbn [andb]; [| startup_fails].
  destruct (non_null d (ev3_open_sensor touch_sensor)) eqn:E8;
    cbn [andb]; [| startup_fails].
  destruct (non_null d (ev3_search_sensor_by_port color_sensor)) eqn:E9;
    cbn [andb]; [| startup_fails].
  destruct (non_null d (ev3_open_sensor color_sensor)) eqn:E10;
    cbn [andb]; [| startup_fails].
  eexists; split; [startup_run; reflexivity | split; reflexivity].
Qed.

(** ** The end of a calibration *)

Lemma returns_after_bind {A B : Type} (Q : list call -> Prop) (p : prog A)
    (f : A -> prog B) :
  (forall a recent, returns_after Q recent (f a)) ->
  forall recent, returns_after Q recent (bind p f).
Proof.
  intros Hf; induction p as [a|c k IH|code|]; intros recent; cbn; auto.
Qed.

Lemma returns_after_alone (Q : list call -> Prop)
    (sch : list (devices * nat)) :
  forall (p : prog unit) (recent : list call) (w w' : world) (a : unit),
    returns_after Q recent p ->
    schedule sch [p] w = Some ([Ret a], w') ->
    exists new, log w' = new ++ log w /\ Q (map ev_call new ++ recent).
Proof.
  induction sch as [|[d i] sch IH]; intros p recent w w' a Hp; cbn.
  - intros E; inversion E; subst; exists []; split; [reflexivity | exact Hp].
  - unfold step; destruct i as [|i]; cbn; [| destruct i; discriminate].
    destruct p as [a0|c k|code|]; try discriminate.
    destruct (exec d c w) as [[r w1]|] eqn:Ee; [|discriminate].
    cbn; intros Hs.
    destruct (IH (k r) (c :: recent) w1 w' a (Hp r) Hs) as (new & Hlog & HQ).
    exists (new ++ [Ev c r]); split.
    + rewrite Hlog, (exec_log d c r w w1 Ee), <- app_assoc; reflexivity.
    + rewrite map_app, <- app_assoc; exact HQ.
Qed.

Lemma initializer_calibrates (MOTOR_RUNNING : Z) (fuel : nat) (m : motor) :
  returns_after (calibrated m) [] (initializer MOTOR_RUNNING fuel m).
Proof.
  destruct m; cbn;
    unfold rotation_motor_initializer, elevation_motor_initializer,
      claw_motor_initializer; cbn; intros;
    apply returns_after_bind; intros; cbn; intros;
    apply returns_after_bind; intros; cbn; intros;
    eexists; reflexivity.
Qed.

(** X13. Whenever the initializer of a motor returns, whatever the
    hardware did meanwhile, its last three calls on the motor were: duty
    cycle 0, run-direct, position counter to 0.  The controllers therefore
    start with their motor in direct drive at zero power. *)
Theorem calibration_ends_in_direct_drive (MOTOR_RUNNING : Z) (fuel : nat) (m : motor)
    (sch : list (devices * nat)) (w w' : world) (a : unit) :
  schedule sch [initializer MOTOR_RUNNING fuel m] w = Some ([Ret a], w') ->
  calibrated m (map ev_call (rev (issued w w'))).
Proof.
  intros Hs.
  destruct (returns_after_alone (calibrated m) sch _ [] w w' a
              (initializer_calibrates MOTOR_RUNNING fuel m) Hs) as (new & Hlog & HQ).
  rewrite (issued_extends w w' new Hlog), rev_involutive.
  rewrite app_nil_r in HQ; exact HQ.
Qed.

(** ** The text of the time *)

Lemma string_length_append (s s' : string) :
  String.length (s ++ s')%string = (String.length s + String.length s')%nat.
Proof. induction s as [|c s IH]; cbn; [reflexivity | rewrite IH; reflexivity]. Qed.

Lemma two_digits_length (n : Z) :
  0 <= n <= 99 -> String.length (two_digits n) = 2%nat.
Proof.
  intros H.
  assert (Hall : forallb (fun i => (String.length (two_digits (Z.of_nat i)) =? 2)%nat)
                   (seq 0 100) = true) by (vm_compute; reflexivity).
  rewrite forallb_forall in Hall.
  specialize (Hall (Z.to_nat n)); rewrite Z2Nat.id in Hall by lia.
  apply Nat.eqb_eq, Hall, in_seq; lia.
Qed.

(** X14. The text the reporter prints for the time has eight characters
    whenever hour, minute and second are between 0 and 99, as the fields
    of a broken-down time are: with its terminator it fills the nine bytes
    of [time_str] and no more. *)
Theorem time_str_fits (hour minute second : Z) :
  0 <= hour <= 99 -> 0 <= minute <= 99 -> 0 <= second <= 99 ->
  String.length (time_str hour minute second) = 8%nat.
Proof.
  intros Hh Hm Hs; unfold time_str.
  rewrite !string_length_append, !two_digits_length by assumption; reflexivity.
Qed.

(** ** Parking at the end of main *)

Lemma polls_wait_log (m m' : motor) (d : devices) (k : nat) :
  forall (n : nat) (l : list event),
    polls m (rev (wait_log d m' n k) ++ l) =
    if motor_eqb m' m then (S k + polls m l)%nat else polls m l.
Proof.
  induction k as [|k IH]; intros n l; simpl.
  - destruct (motor_eqb m' m); reflexivity.
  - rewrite <- !app_assoc, IH; simpl.
    destruct (motor_eqb m' m); [rewrite Nat.add_succ_r|]; reflexivity.
Qed.

(** X15. At the end of main the three motors are parked one after the
    other, rotation, elevation, claw: each is sent to absolute position 0
    and waited for until it no longer reports RUNNING before the next one
    is moved, and the three are reset after the last has stopped.  No duty
    cycle is set and no global is written. *)
Theorem parking_in_order (MOTOR_RUNNING : Z) (d : devices) (fuel kr ke kc : nat)
    (w : world) :
  (kr < fuel)%nat -> (ke < fuel)%nat -> (kc < fuel)%nat ->
  stops_after MOTOR_RUNNING d rotation_motor (log w) kr ->
  stops_after MOTOR_RUNNING d elevation_motor (log w) ke ->
  stops_after MOTOR_RUNNING d claw_motor (log w) kc ->
  run d (main_parking MOTOR_RUNNING fuel) w =
  Returned tt
    (World (mem w)
       (rev (park_log d w rotation_motor kr ++
             park_log d w elevation_motor ke ++
             park_log d w claw_motor kc ++
             [reset d rotation_motor; reset d elevation_motor; reset d claw_motor])
        ++ log w)).
Proof.
  intros Hr He Hc Sr Se Sc; unfold main_parking, park.
  cbn; unfold exec; cbn.
  rewrite !run_bind, (run_wait _ _ _ kr); [| exact Hr | exact Sr].
  cbn; unfold exec; cbn.
  rewrite !run_bind, (run_wait _ _ _ ke); [| exact He |].
  2:{ unfold stops_after in *; repeat (progress (cbn; rewrite ?polls_wait_log)); exact Se. }
  cbn; unfold exec; cbn.
  rewrite !run_bind, (run_wait _ _ _ kc); [| exact Hc |].
  2:{ unfold stops_after in *; repeat (progress (cbn; rewrite ?polls_wait_log)); exact Sc. }
  cbn; unfold exec; cbn.
  repeat (progress (cbn; rewrite ?polls_wait_log)).
  unfold park_log, reset.
  repeat (progress (rewrite ?rev_app_distr, <- ?app_assoc; cbn)); reflexivity.
Qed.

(** ** No correction shown without a recovery *)

Lemma alternates_bind {A B : Type} (p : prog A) (f : A -> prog B) :
  forall b,
    alternates b p -> (forall a, alternates false (f a)) -> alternates b (bind p f).
Proof.
  induction p as [a|c k IH|code|]; cbn; intros b Hp Hf; auto.
  - subst b; apply Hf.
  - destruct (correction_write c) as [b'|].
    + destruct Hp as [Hc Hk]; split; [exact Hc | intros r; apply IH; auto].
    + intros r; apply IH; auto.
Qed.

Lemma alternates_wait (MOTOR_RUNNING : Z) (m : motor) (fuel : nat) (b : bool) :
  (forall A (f : unit -> prog A),
     alternates b (f tt) ->
     alternates b (bind (wait_while_running MOTOR_RUNNING fuel m) f)).
Proof.
  intros A f Hf; induction fuel as [|n IH]; cbn; [exact I|].
  intros st.
  destruct (Z.land st MOTOR_RUNNING =? 0); cbn; [exact Hf|].
  intros []; exact IH.
Qed.

Ltac alt :=
  repeat (cbn;
    match goal with
    | |- _ /\ _ => split
    | |- forall _, _ => intro
    | |- True => exact I
    | |- _ = _ => reflexivity
    | |- alternates _ (bind (if ?b then _ else _) _) => destruct b
    | |- alternates _ (bind (match ?x with _ => _ end) _) => destruct x
    | |- alternates _ (bind (wait_while_running _ _ _) _) => apply alternates_wait
    | |- alternates _ (bind (bind _ _) _) => apply alternates_bind
    | |- alternates _ (if ?b then _ else _) => destruct b
    | |- alternates _ (match ?x with _ => _ end) => destruct x
    end).

Lemma alternates_periodic {S : Type} (period : Z) (body : S -> prog S) (iters : nat) :
  (forall s, alternates false (body s)) ->
  forall next_time s, alternates false (periodic iters period body next_time s).
Proof.
  intros Hb; induction iters as [|n IH]; intros t s; cbn; [exact I|].
  intros _ stop _. destruct stop; cbn; [reflexivity|].
  apply alternates_bind; [apply Hb | intros s'].
  cbn. intros r.
  destruct (r =? 0); cbn; [apply IH | intros _; exact I].
Qed.

Lemma tick_alternates (MOTOR_RUNNING EV3_X_LCD EV3_Y_LCD : Z) (fuel : nat)
    (a : activity) (s : local a) :
  alternates false (tick MOTOR_RUNNING EV3_X_LCD EV3_Y_LCD fuel a s).
Proof. destruct a; cbn in *; alt. Qed.

Lemma controller_alternates (MOTOR_RUNNING EV3_X_LCD EV3_Y_LCD : Z) (iters fuel : nat)
    (a : activity) :
  alternates false (controller MOTOR_RUNNING EV3_X_LCD EV3_Y_LCD iters fuel a).
Proof.
  rewrite controller_resume; cbn; intros next_time.
  apply alternates_periodic; intros s; apply tick_alternates.
Qed.

Lemma alternates_owes {A : Type} (p : prog A) : alternates true p -> owes_clear p.
Proof.
  induction p as [a|c k IH|code|]; cbn; auto; [discriminate|].
  destruct (correction_write c) as [b|].
  - intros [Hc _]; exact Hc.
  - intros Hk r; apply IH, Hk.
Qed.

Lemma answer_correction (d : devices) (l : list event) (g g' : globals) (c : call)
    (r : result c) :
  answer d l g c = Some (r, g') ->
  g_correction_in_progress g' =
  match correction_write c with
  | Some b => b
  | None => g_correction_in_progress g
  end.
Proof.
  destruct c; cbn; intros E; try (inversion E; subst; reflexivity).
  - destruct (held m l); [discriminate | inversion E; subst; reflexivity].
  - destruct f; inversion E; subst; reflexivity.
Qed.

Lemma step_correcting (d : devices) (i : nat) (ts ts' : list (prog unit))
    (w w' : world) (bs : list bool) :
  correcting bs ts (mem w) ->
  step d i ts w = Some (ts', w') ->
  exists bs', correcting bs' ts' (mem w').
Proof.
  intros [Ha Hf]; unfold step.
  destruct (nth_error ts i) as [[a|c k|code|]|] eqn:En; try discriminate.
  unfold exec.
  destruct (answer d (log w) (mem w) c) as [[r g]|] eqn:Ee; [|discriminate].
  intros E; inversion E; subst ts' w'; clear E; cbn [mem].
  destruct (Forall2_nth_right _ _ _ Ha i _ En) as (b & Eb & Hc).
  pose proof (answer_correction d _ _ _ c r Ee) as Hg.
  unfold correcting; rewrite Hg.
  cbn in Hc; destruct (correction_write c) as [b'|].
  - destruct Hc as [_ Hk]; exists (replace i b' bs); split.
    + apply Forall2_replace; [exact Ha | apply Hk].
    + intros ->; exact (In_replace_self bs i _ _ Eb).
  - exists bs; split; [|exact Hf].
    rewrite <- (replace_same bs i _ Eb) at 1.
    apply Forall2_replace; [exact Ha | apply Hc].
Qed.

Lemma schedule_correcting (sch : list (devices * nat)) :
  forall (ts ts' : list (prog unit)) (w w' : world) (bs : list bool),
    correcting bs ts (mem w) ->
    schedule sch ts w = Some (ts', w') ->
    exists bs', correcting bs' ts' (mem w').
Proof.
  induction sch as [|[d i] sch IH]; intros ts ts' w w' bs Hc; cbn.
  - intros E; inversion E; subst; exists bs; exact Hc.
  - destruct (step d i ts w) as [[ts1 w1]|] eqn:Es; [|discriminate].
    destruct (step_correcting d i ts ts1 w w1 bs Hc Es) as (bs1 & Hc1).
    apply (IH ts1 ts' w1 w' bs1 Hc1).
Qed.

(** X16. [correction_in_progress] is never true without a recovery under
    way: however the controllers have been interleaved from a start with
    the flag false, if the flag is true then one of them is in the middle
    of a correction, between the write of true and the write of false of
    one of its recovery branches. *)
Theorem correction_means_recovery (MOTOR_RUNNING EV3_X_LCD EV3_Y_LCD : Z)
    (iters fuel : nat) (sch : list (devices * nat)) (w w' : world)
    (ts' : list (prog unit)) :
  g_correction_in_progress (mem w) = false ->
  schedule sch (controllers MOTOR_RUNNING EV3_X_LCD EV3_Y_LCD iters fuel) w
    = Some (ts', w') ->
  g_correction_in_progress (mem w') = true ->
  Exists owes_clear ts'.
Proof.
  intros Hw Hs Hflag.
  assert (H0 : correcting (repeat false 8)
                 (controllers MOTOR_RUNNING EV3_X_LCD EV3_Y_LCD iters fuel) (mem w)).
  { split.
    - unfold controllers; cbn [map repeat].
      repeat (apply Forall2_cons; [apply controller_alternates|]); apply Forall2_nil.
    - rewrite Hw; discriminate. }
  destruct (schedule_correcting sch _ _ _ _ _ H0 Hs) as (bs' & Ha & Hin).
  destruct (In_nth_error bs' true (Hin Hflag)) as (j & Ej).
  destruct (Forall2_nth_left _ _ _ Ha j _ Ej) as (p & Ep & Hp).
  apply Exists_exists; exists p; split;
    [exact (nth_error_In _ _ Ep) | exact (alternates_owes p Hp)].
Qed.

(** ** The properties above at sample inputs *)

Lemma start_unlocked : unlocked start.
Proof. intros m; reflexivity. Defined.

Lemma center_held_stopped (m : motor) : stops_after RUNNING_BIT center_held m [] 0.
Proof. split; [intros j Hj; inversion Hj | reflexivity]. Defined.

Lemma overshoot_recovering_rotation :
  recovering_rotation RUNNING_BIT 2 (overshoot_brick, start).
Proof.
  split; [exact start_unlocked|].
  split; [exact (two_polls_overshoot rotation_motor)|].
  right; split; reflexivity.
Defined.

Lemma no_deadlock_witness :
  unlocked start /\
  exists ts' w',
    schedule overlapping_recoveries
      (controllers RUNNING_BIT LCD_WIDTH LCD_HEIGHT 2 2) start = Some (ts', w') /\
    Exists unfinished ts' /\
    exists j ts'' w'', step idle_brick j ts' w' = Some (ts'', w'').
Proof.
  refine (conj start_unlocked _).
  eassert (Hs : schedule overlapping_recoveries
                  (controllers RUNNING_BIT LCD_WIDTH LCD_HEIGHT 2 2) start
                = Some (_, _)) by (vm_compute; reflexivity).
  refine (ex_intro _ _ (ex_intro _ _ (conj Hs _))).
  match goal with
  | |- Exists unfinished ?ts /\ _ =>
      assert (Hex : Exists unfinished ts) by (apply Exists_cons_hd; exact I)
  end.
  refine (conj Hex _).
  exact (no_deadlock RUNNING_BIT LCD_WIDTH LCD_HEIGHT 2 2 overlapping_recoveries
           start _ _ idle_brick start_unlocked Hs Hex).
Defined.

Lemma claw_period_witness :
  unlocked claw_requested /\ (0 < 3)%nat /\
  claw (mem claw_requested) = ACTIVE /\
  stops_after RUNNING_BIT center_held claw_motor (log claw_requested) 0 /\
  run center_held (claw_tick RUNNING_BIT 3 false) claw_requested =
  Returned true
    (World (after_toggle false (mem claw_requested))
       (rev (claw_open_log center_held claw_requested 0) ++ log claw_requested)).
Proof.
  assert (Hu : unlocked claw_requested) by (intros m; reflexivity).
  assert (Hf : (0 < 3)%nat) by lia.
  refine (conj Hu (conj Hf (conj eq_refl (conj (center_held_stopped claw_motor) _)))).
  exact (proj2 (proj2 (claw_period RUNNING_BIT 3 0 center_held claw_requested Hu Hf))
           eq_refl (center_held_stopped claw_motor)).
Defined.



Lemma recovery_then_intent_witness :
  (2 < 5)%nat /\
  recovering_rotation RUNNING_BIT 2 (overshoot_brick, start) /\
  quiet_rotation ROTATE_LEFT (left_held, left_published) /\
  exists l1 l2,
    run_ticks (rotation_tick RUNNING_BIT 5) ROTATE_RIGHT
      [(overshoot_brick, start); (left_held, left_published)]
      = Some (ROTATE_LEFT, [l1; l2]) /\
    duties l1 = [(rotation_motor, 0)] /\
    duties l2 =
      (if actions_rotation_eqb ROTATE_STOP ROTATE_LEFT then []
       else [(rotation_motor, rotation_power ROTATE_LEFT)]).
Proof.
  assert (Hf : (2 < 5)%nat) by lia.
  assert (Hq : quiet_rotation ROTATE_LEFT (left_held, left_published))
    by (apply left_published_quiet; discriminate).
  refine (conj Hf (conj overshoot_recovering_rotation (conj Hq _))).
  exact (proj1 (recovery_then_intent RUNNING_BIT 5 2 Hf)
           ROTATE_RIGHT ROTATE_LEFT _ _ overshoot_recovering_rotation Hq).
Defined.

Lemma calibration_ends_in_direct_drive_witness :
  exists w',
    schedule lone_calibration [initializer RUNNING_BIT 3 rotation_motor] start
      = Some ([Ret tt], w') /\
    calibrated rotation_motor (map ev_call (rev (issued start w'))).
Proof.
  eassert (Hs : schedule lone_calibration [initializer RUNNING_BIT 3 rotation_motor]
                  start = Some ([Ret tt], _)) by (vm_compute; reflexivity).
  refine (ex_intro _ _ (conj Hs _)).
  exact (calibration_ends_in_direct_drive RUNNING_BIT 3 rotation_motor
           lone_calibration start _ tt Hs).
Defined.

Lemma time_str_fits_witness :
  0 <= 9 <= 99 /\ 0 <= 5 <= 99 /\ 0 <= 59 <= 99 /\
  String.length (time_str 9 5 59) = 8%nat.
Proof.
  assert (H9 : 0 <= 9 <= 99) by lia.
  assert (H5 : 0 <= 5 <= 99) by lia.
  assert (H59 : 0 <= 59 <= 99) by lia.
  refine (conj H9 (conj H5 (conj H59 _))).
  exact (time_str_fits 9 5 59 H9 H5 H59).
Defined.

Lemma parking_in_order_witness :
  (2 < 5)%nat /\
  stops_after RUNNING_BIT overshoot_brick rotation_motor (log start) 2 /\
  stops_after RUNNING_BIT overshoot_brick elevation_motor (log start) 2 /\
  stops_after RUNNING_BIT overshoot_brick claw_motor (log start) 2 /\
  run overshoot_brick (main_parking RUNNING_BIT 5) start =
  Returned tt
    (World (mem start)
       (rev (park_log overshoot_brick start rotation_motor 2 ++
             park_log overshoot_brick start elevation_motor 2 ++
             park_log overshoot_brick start claw_motor 2 ++
             [reset overshoot_brick rotation_motor;
              reset overshoot_brick elevation_motor;
              reset overshoot_brick claw_motor])
        ++ log start)).
Proof.
  assert (Hf : (2 < 5)%nat) by lia.
  refine (conj Hf (conj (two_polls_overshoot rotation_motor)
            (conj (two_polls_overshoot elevation_motor)
               (conj (two_polls_overshoot claw_motor) _)))).
  exact (parking_in_order RUNNING_BIT overshoot_brick 5 2 2 2 start Hf Hf Hf
           (two_polls_overshoot rotation_motor)
           (two_polls_overshoot elevation_motor)
           (two_polls_overshoot claw_motor)).
Defined.

Lemma correction_means_recovery_witness :
  g_correction_in_progress (mem start) = false /\
  exists ts' w',
    schedule rotation_recovering
      (controllers RUNNING_BIT LCD_WIDTH LCD_HEIGHT 2 2) start = Some (ts', w') /\
    g_correction_in_progress (mem w') = true /\
    Exists owes_clear ts'.
Proof.
  refine (conj eq_refl _).
  eassert (Hs : schedule rotation_recovering
                  (controllers RUNNING_BIT LCD_WIDTH LCD_HEIGHT 2 2) start
                = Some (_, _)) by (vm_compute; reflexivity).
  refine (ex_intro _ _ (ex_intro _ _ (conj Hs (conj eq_refl _)))).
  exact (correction_means_recovery RUNNING_BIT LCD_WIDTH LCD_HEIGHT 2 2
           rotation_recovering start _ _ eq_refl Hs eq_refl).
Defined.

Lemma duty_cycle_in_range_all_schedules_witness :
  exists ts' w',
    schedule overlapping_recoveries
      (controllers RUNNING_BIT LCD_WIDTH LCD_HEIGHT 2 2) start = Some (ts', w') /\
    Forall axis_duty_ok (duties (issued start w')).
Proof.
  eassert (Hs : schedule overlapping_recoveries
                  (controllers RUNNING_BIT LCD_WIDTH LCD_HEIGHT 2 2) start
                = Some (_, _)) by (vm_compute; reflexivity).
  refine (ex_intro _ _ (ex_intro _ _ (conj Hs _))).
  exact (duty_cycle_in_range_all_schedules RUNNING_BIT LCD_WIDTH LCD_HEIGHT 2 2
           overlapping_recoveries start _ _ Hs).
Defined.
